(** * The Dalvik garbage-collected heap coordinator ([vm/alloc/Heap.c])

    A shallow embedding of the allocation ladder, the GC driver, the
    out-of-memory escalator, the heap-worker hand-off and the object
    validity test of [vm/alloc/Heap.c], together with the properties the
    specification states about them.

    The functions of [Heap.c] are written in a small state monad.  The state
    holds the fields of [gDvm], of [gDvm.gcHeap] and of the calling thread's
    [Thread] structure that [Heap.c] reads or writes, the private state of
    the collaborators (heap source, mark-sweep engine, thread registry, ...)
    and the trace of every call that leaves [Heap.c] and of every log line.
    The collaborators themselves are not part of [Heap.c]; they are taken
    as handlers, and every property is proved for all of them. *)

From Stdlib Require Import ZArith NArith List String Bool Lia.
Import ListNotations.

Set Implicit Arguments.

(** ** Values of the C program *)

(** An [Object*] (or [void*]) is [NULL] or a non-zero address. *)
Definition addr := positive.
Bind Scope positive_scope with addr.
Definition ptr := option addr.
Definition NULL : ptr := None.

Definition is_null (p : ptr) : bool :=
  match p with None => true | Some _ => false end.

(** [(uintptr_t)obj] *)
Definition uintptr (p : ptr) : Z :=
  match p with None => 0%Z | Some a => Z.pos a end.

(** [size_t] is unsigned; a value of it is a natural number. *)
Definition size_t := N.
Bind Scope N_scope with size_t.

(** [u4] arithmetic wraps at 32 bits. *)
Definition u4 (z : Z) : Z := (z mod 2 ^ 32)%Z.

(** [int] arithmetic, with the wrap-around the compiler gives it. *)
Definition int32 (z : Z) : Z := ((z + 2 ^ 31) mod 2 ^ 32 - 2 ^ 31)%Z.

(** [enum GcReason] and [enum GcMode] ([alloc/Heap.h]). *)
Inductive GcReason := GC_FOR_MALLOC | GC_CONCURRENT | GC_EXPLICIT.
Inductive GcMode := GC_PARTIAL | GC_FULL.

Definition GcReason_eqb (a b : GcReason) : bool :=
  match a, b with
  | GC_FOR_MALLOC, GC_FOR_MALLOC => true
  | GC_CONCURRENT, GC_CONCURRENT => true
  | GC_EXPLICIT, GC_EXPLICIT => true
  | _, _ => false
  end.

(** [static const char* GcReasonStr[]] *)
Definition GcReasonStr (reason : GcReason) : string :=
  match reason with
  | GC_FOR_MALLOC => "GC_FOR_MALLOC"
  | GC_CONCURRENT => "GC_CONCURRENT"
  | GC_EXPLICIT => "GC_EXPLICIT"
  end.

(** [#define kInvalidPriority 10000] *)
Definition kInvalidPriority : Z := 10000.

(** [enum HeapWorkerOperation] *)
Inductive HeapWorkerOperation := WORKER_FINALIZE | WORKER_ENQUEUE.

(** The mutexes and the condition variable of [gDvm] that [Heap.c] uses. *)
Inductive Mutex := gcHeapLock | heapWorkerListLock | heapWorkerLock.
Inductive Cond := gcHeapCond.

Inductive SuspendCause := SUSPEND_FOR_GC.
Inductive SchedPolicy := SP_BACKGROUND | SP_FOREGROUND.
Inductive HeapSourceValueSpec := HS_FOOTPRINT | HS_BYTES_ALLOCATED.

(** A [Thread*] handed to a collaborator: the calling thread's structure, or
    [NULL]. *)
Inductive ThreadPtr := ThreadNULL | ThreadSelf.

(** The three large reference tables of [GcHeap], named by the field whose
    address is passed ([&gcHeap->finalizableRefs], ...). *)
Inductive TableField :=
  FinalizableRefs | PendingFinalizationRefs | ReferenceOperations.

(** Log lines: the priority, whether the [_HEAP] variant of the macro was
    used, the format string and the arguments, as the call passes them. *)
Inductive LogPriority := LOG_VERBOSE | LOG_DEBUG | LOG_INFO | LOG_WARN | LOG_ERROR.
Inductive LogArg := ArgS (s : string) | ArgZ (z : Z) | ArgN (n : N).

(** ** State that [Heap.c] owns or touches *)

(** Modelled from the spec: [LargeHeapRefTable] and its operations live in
    [alloc/HeapTable.c], which is not part of the sources at hand.  The spec
    describes each table as an ordered queue of objects ("large append-only
    queues of tracked references"), appended at one end and dequeued at the
    other; an entry is an object, never [NULL]. *)
Definition LargeHeapRefTable := list addr.

Record GcHeap := mkGcHeap {
  gcRunning : bool;
  finalizableRefs : LargeHeapRefTable;
  pendingFinalizationRefs : LargeHeapRefTable;
  referenceOperations : LargeHeapRefTable;
  softReferences : ptr;
  weakReferences : ptr;
  phantomReferences : ptr;
  ddmHpifWhen : Z;
  ddmHpsgWhen : Z;
  ddmNhsgWhen : Z
}.

Record AllocProfState := mkAllocProf {
  enabled : bool;
  allocCount : Z;
  allocSize : Z;
  failedAllocCount : Z;
  failedAllocSize : Z;
  gcCount : Z
}.

Record Thread := mkThread {
  throwingOOME : bool;
  thread_allocProf : AllocProfState
}.

Record DvmGlobals := mkDvmGlobals {
  heapGrowthLimit : size_t;
  gcHeap : GcHeap;
  allocProf : AllocProfState;
  preVerify : bool;
  postVerify : bool;
  verifyCardTable : bool;
  outOfMemoryObj : ptr
}.

(** Field updates. *)
Definition set_gcRunning (b : bool) (h : GcHeap) : GcHeap :=
  mkGcHeap b (finalizableRefs h) (pendingFinalizationRefs h)
    (referenceOperations h) (softReferences h) (weakReferences h)
    (phantomReferences h) (ddmHpifWhen h) (ddmHpsgWhen h) (ddmNhsgWhen h).

Definition clear_referenceLists (h : GcHeap) : GcHeap :=
  mkGcHeap (gcRunning h) (finalizableRefs h) (pendingFinalizationRefs h)
    (referenceOperations h) NULL NULL NULL
    (ddmHpifWhen h) (ddmHpsgWhen h) (ddmNhsgWhen h).

Definition table (f : TableField) (h : GcHeap) : LargeHeapRefTable :=
  match f with
  | FinalizableRefs => finalizableRefs h
  | PendingFinalizationRefs => pendingFinalizationRefs h
  | ReferenceOperations => referenceOperations h
  end.

Definition set_table (f : TableField) (t : LargeHeapRefTable) (h : GcHeap)
  : GcHeap :=
  match f with
  | FinalizableRefs =>
      mkGcHeap (gcRunning h) t (pendingFinalizationRefs h)
        (referenceOperations h) (softReferences h) (weakReferences h)
        (phantomReferences h) (ddmHpifWhen h) (ddmHpsgWhen h) (ddmNhsgWhen h)
  | PendingFinalizationRefs =>
      mkGcHeap (gcRunning h) (finalizableRefs h) t
        (referenceOperations h) (softReferences h) (weakReferences h)
        (phantomReferences h) (ddmHpifWhen h) (ddmHpsgWhen h) (ddmNhsgWhen h)
  | ReferenceOperations =>
      mkGcHeap (gcRunning h) (finalizableRefs h) (pendingFinalizationRefs h)
        t (softReferences h) (weakReferences h)
        (phantomReferences h) (ddmHpifWhen h) (ddmHpsgWhen h) (ddmNhsgWhen h)
  end.

Definition set_gcHeap (h : GcHeap) (g : DvmGlobals) : DvmGlobals :=
  mkDvmGlobals (heapGrowthLimit g) h (allocProf g) (preVerify g)
    (postVerify g) (verifyCardTable g) (outOfMemoryObj g).

Definition set_allocProf (p : AllocProfState) (g : DvmGlobals) : DvmGlobals :=
  mkDvmGlobals (heapGrowthLimit g) (gcHeap g) p (preVerify g)
    (postVerify g) (verifyCardTable g) (outOfMemoryObj g).

(** [p->gcCount++] *)
Definition bump_gcCount (p : AllocProfState) : AllocProfState :=
  mkAllocProf (enabled p) (allocCount p) (allocSize p) (failedAllocCount p)
    (failedAllocSize p) (int32 (gcCount p + 1)).

(** [p->allocCount++; p->allocSize += size;] *)
Definition bump_alloc (size : size_t) (p : AllocProfState) : AllocProfState :=
  mkAllocProf (enabled p) (int32 (allocCount p + 1))
    (int32 (allocSize p + Z.of_N size)) (failedAllocCount p)
    (failedAllocSize p) (gcCount p).

(** [p->failedAllocCount++; p->failedAllocSize += size;] *)
Definition bump_failedAlloc (size : size_t) (p : AllocProfState)
  : AllocProfState :=
  mkAllocProf (enabled p) (allocCount p) (allocSize p)
    (int32 (failedAllocCount p + 1))
    (int32 (failedAllocSize p + Z.of_N size)) (gcCount p).

Definition set_throwingOOME (b : bool) (t : Thread) : Thread :=
  mkThread b (thread_allocProf t).

Definition set_thread_allocProf (p : AllocProfState) (t : Thread) : Thread :=
  mkThread (throwingOOME t) p.

(** ** Collaborators

    Everything [Heap.c] calls and does not define.  The calls are grouped by
    what the callee can touch:
    - a [Query] reads the collaborators' state and changes nothing;
    - an [ExtCall] changes the collaborators' state only;
    - an [EnvCall] runs code that may write the fields of [gDvm], of
      [GcHeap] and of the [Thread] structure as well: the mark-sweep engine
      (which takes pointers into [GcHeap]), a wait on the condition variable
      (other threads run while the heap lock is released) and
      [dvmThrowException] (which allocates, and so re-enters [dvmMalloc]). *)

(** What the build and the headers outside [Heap.c] fix: the types of the
    collaborators' state, of [enum ThreadStatus] ([Thread.h], with its member
    [THREAD_VMWAIT]) and of a [HeapBitmap*]; the allocation flags
    ([alloc/Alloc.h]), the Android priorities ([utils/threads.h]) and
    [FRACTIONAL_MB] ([alloc/HeapInternal.h], which expands to two arguments
    of the log call); the single-precision computation
    [(size_t)(100.0f * (float)currAllocated / currFootprint)], which is
    outside the embedding; and the build switches. *)
Class Platform := {
  Ext : Type;
  ThreadStatus : Type;
  THREAD_VMWAIT : ThreadStatus;
  HeapBitmapPtr : Type;
  ALLOC_DONT_TRACK : Z;
  ALLOC_FINALIZABLE : Z;
  ANDROID_PRIORITY_NORMAL : Z;
  ANDROID_PRIORITY_BACKGROUND : Z;
  FRACTIONAL_MB : size_t -> size_t * size_t;
  float_percent : size_t -> size_t -> size_t;
  NDEBUG : bool;
  WITH_JIT : bool
}.

Section Calls.

Context {platform : Platform}.

Inductive Query : Type -> Type :=
| dvmHeapSourceGetIdealFootprint : Query size_t
| dvmHeapSourceContains (obj : ptr) : Query bool
| dvmHeapSourceChunkSize (obj : ptr) : Query size_t
| dvmHeapSourceGetValue (spec : HeapSourceValueSpec) : Query size_t
| dvmHeapSourceGetLiveBits : Query HeapBitmapPtr
| dvmIsOnThreadList (thread : ThreadPtr) : Query bool
| dvmGetSysThreadId : Query Z
| strerror (errnum : Z) : Query string
| dvmDumpThread (thread : ThreadPtr) (isRunning : bool) : Query unit.

Inductive ExtCall : Type -> Type :=
| dvmHeapSourceAlloc (n : size_t) : ExtCall ptr
| dvmHeapSourceAllocAndGrow (n : size_t) : ExtCall ptr
| dvmHeapSourceSwapBitmaps : ExtCall unit
| dvmHeapSourceGrowForUtilization : ExtCall unit
| dvmScheduleHeapSourceTrim (timeoutSec : Z) : ExtCall unit
| dvmTryLockMutex (m : Mutex) : ExtCall Z
| dvmLockMutex (m : Mutex) : ExtCall unit
| dvmUnlockMutex (m : Mutex) : ExtCall unit
| dvmBroadcastCond (c : Cond) : ExtCall unit
| dvmChangeStatus (thread : ThreadPtr) (newStatus : ThreadStatus)
    : ExtCall ThreadStatus
| dvmSuspendAllThreads (why : SuspendCause) : ExtCall unit
| dvmResumeAllThreads (why : SuspendCause) : ExtCall unit
| dvmAddTrackedAlloc (obj : ptr) (thread : ThreadPtr) : ExtCall unit
| dvmSetException (thread : ThreadPtr) (exception : ptr) : ExtCall unit
  (** the native allocation inside [dvmHeapAddRefToLargeTable]: is there
      room for one more entry *)
| largeTableRoom (f : TableField) : ExtCall bool
| dvmGetRelativeTimeMsec : ExtCall Z
  (** [getpriority(PRIO_PROCESS, 0)] after [errno = 0]: the result and the
      value of [errno] after the call *)
| getpriority : ExtCall (Z * Z)
  (** [setpriority(PRIO_PROCESS, 0, prio)]: the result and [errno] *)
| setpriority (prio : Z) : ExtCall (Z * Z)
| set_sched_policy (tid : Z) (policy : SchedPolicy) : ExtCall unit
  (** [false]: the worker is wedged and the callee has aborted the VM *)
| dvmAssertHeapWorkerThreadRunning : ExtCall bool
| dvmVerifyRoots : ExtCall unit
| dvmVerifyBitmap (bitmap : HeapBitmapPtr) : ExtCall unit
| dvmVerifyCardTable : ExtCall unit
| dvmClearCardTable : ExtCall unit
| dvmMethodTraceGCBegin : ExtCall unit
| dvmMethodTraceGCEnd : ExtCall unit
| dvmCompilerPerformSafePointChecks : ExtCall unit
| dvmDdmSendHeapInfo (reason : Z) (shouldLock : bool) : ExtCall unit
| dvmDdmSendHeapSegments (shouldLock native : bool) : ExtCall unit.

Inductive EnvCall : Type -> Type :=
| dvmWaitCond (c : Cond) (m : Mutex) : EnvCall unit
| dvmThrowException (exceptionDescriptor : string) (msg : option string)
    : EnvCall unit
| dvmHeapBeginMarkStep (mode : GcMode) : EnvCall bool
| dvmHeapMarkRootSet : EnvCall unit
| dvmHeapReMarkRootSet : EnvCall unit
| dvmHeapScanMarkedObjects : EnvCall unit
| dvmHeapReScanMarkedObjects : EnvCall unit
  (** [dvmHeapProcessReferences(&gcHeap->softReferences, clearSoftRefs,
      &gcHeap->weakReferences, &gcHeap->phantomReferences)] *)
| dvmHeapProcessReferences (clearSoftRefs : bool) : EnvCall unit
| dvmHeapSweepSystemWeaks : EnvCall unit
  (** returns [(numObjectsFreed, numBytesFreed)] *)
| dvmHeapSweepUnmarkedObjects (mode : GcMode) (isConcurrent : bool)
    : EnvCall (size_t * size_t)
| dvmHeapFinishMarkStep : EnvCall unit.

Record World := mkWorld {
  gDvm : DvmGlobals;
  curThread : option Thread;
  ext : Ext
}.

End Calls.

(** The collaborators: what each call answers and what it leaves behind. *)
Class Collaborators {platform : Platform} := {
  on_query : forall R : Type, Query R -> Ext -> R;
  on_call : forall R : Type, ExtCall R -> Ext -> R * Ext;
  on_env : forall R : Type, EnvCall R -> World -> R * World
}.

Section Monad.

Context {platform : Platform} {collaborators : Collaborators}.

(** ** Traces *)

Inductive Event :=
| EvLog (prio : LogPriority) (heapTag : bool) (fmt : string)
    (args : list LogArg)
| EvQuery (R : Type) (q : Query R) (r : R)
| EvCall (R : Type) (c : ExtCall R) (r : R)
| EvEnv (R : Type) (c : EnvCall R) (r : R)
| EvAbort.

Record State := mkState {
  world : World;
  trace : list Event
}.

(** ** The monad *)

Inductive Outcome (A : Type) :=
| Done (a : A) (s : State)      (** the function returned [a] *)
| Aborted (s : State)           (** [dvmAbort()], or a failed [assert] *)
| Spinning (s : State).         (** still waiting when the fuel ran out *)

Arguments Aborted {A} s.
Arguments Spinning {A} s.

Definition M (A : Type) := State -> Outcome A.

Definition ret {A} (a : A) : M A := fun s => Done a s.

Definition bind {A B} (m : M A) (k : A -> M B) : M B :=
  fun s =>
    match m s with
    | Done a s' => k a s'
    | Aborted s' => Aborted s'
    | Spinning s' => Spinning s'
    end.

End Monad.

Arguments Aborted {platform A} s.
Arguments Spinning {platform A} s.

Notation "x <- m ;; k" := (bind m (fun x => k))
  (at level 61, m at next level, right associativity).
Notation "' p <- m ;; k" := (bind m (fun p => k))
  (at level 61, p pattern, m at next level, right associativity).
Notation "m ;; k" := (bind m (fun _ => k))
  (at level 61, right associativity).

Section HeapC.

Context {platform : Platform} {collaborators : Collaborators}.

Definition record (e : Event) (s : State) : State :=
  mkState (world s) (trace s ++ [e]).

Definition emit (e : Event) : M unit := fun s => Done tt (record e s).

Definition gets {A} (f : World -> A) : M A := fun s => Done (f (world s)) s.

Definition modify (f : World -> World) : M unit :=
  fun s => Done tt (mkState (f (world s)) (trace s)).

Definition query {R} (q : Query R) : M R :=
  fun s =>
    let r := on_query q (ext (world s)) in
    Done r (record (EvQuery q r) s).

Definition call {R} (c : ExtCall R) : M R :=
  fun s =>
    let w := world s in
    let (r, e) := on_call c (ext w) in
    Done r (mkState (mkWorld (gDvm w) (curThread w) e) (trace s ++ [EvCall c r])).

Definition yield {R} (c : EnvCall R) : M R :=
  fun s =>
    let (r, w) := on_env c (world s) in
    Done r (mkState w (trace s ++ [EvEnv c r])).

(** [dvmAbort()] does not return. *)
Definition dvmAbort {A} : M A := fun s => Aborted (record EvAbort s).

(** [assert(c)]: nothing under [NDEBUG], an abort otherwise when [c] fails. *)
Definition assert (c : bool) : M unit :=
  if NDEBUG || c then ret tt else dvmAbort.

(** [if (c) { m }] *)
Definition when (c : bool) (m : M unit) : M unit :=
  if c then m else ret tt.

(** The logging macros. *)
Definition LOGV_HEAP fmt args := emit (EvLog LOG_VERBOSE true fmt args).
Definition LOGD_HEAP fmt args := emit (EvLog LOG_DEBUG true fmt args).
Definition LOGI_HEAP fmt args := emit (EvLog LOG_INFO true fmt args).
Definition LOGW_HEAP fmt args := emit (EvLog LOG_WARN true fmt args).
Definition LOGE_HEAP fmt args := emit (EvLog LOG_ERROR true fmt args).
Definition LOGD fmt args := emit (EvLog LOG_DEBUG false fmt args).

(** Access paths. *)
Definition the_gcHeap (w : World) : GcHeap := gcHeap (gDvm w).

Definition with_gcHeap (f : GcHeap -> GcHeap) (w : World) : World :=
  mkWorld (set_gcHeap (f (the_gcHeap w)) (gDvm w)) (curThread w) (ext w).

Definition with_allocProf (f : AllocProfState -> AllocProfState) (w : World)
  : World :=
  mkWorld (set_allocProf (f (allocProf (gDvm w))) (gDvm w)) (curThread w) (ext w).

(** A write through [self], which the caller has checked to be non-null. *)
Definition with_self (f : Thread -> Thread) (w : World) : World :=
  mkWorld (gDvm w) (option_map f (curThread w)) (ext w).

(** [dvmThreadSelf()]: the calling thread's structure, or [NULL] for a
    thread that has none. *)
Definition dvmThreadSelf : M ThreadPtr :=
  gets (fun w => match curThread w with Some _ => ThreadSelf | None => ThreadNULL end).

Definition thread_is_null (t : ThreadPtr) : bool :=
  match t with ThreadNULL => true | ThreadSelf => false end.

(** ** The large reference tables

    Modelled from the spec: [dvmHeapAddRefToLargeTable] and
    [dvmHeapGetNextObjectFromLargeTable] ([alloc/HeapTable.c]) are not part
    of the sources at hand.  From the spec: a table is a queue; an append
    puts the object at the end and can fail (table overflow), in which case
    the table is left as it was; the dequeue returns the next object, or
    [NULL] when the table is empty.  Whether the append finds room is the
    native allocator's business, hence a call to the collaborators. *)

Definition dvmHeapAddRefToLargeTable (f : TableField) (ref : addr) : M bool :=
  room <- call (largeTableRoom f) ;;
  if room then
    modify (with_gcHeap (fun h => set_table f (table f h ++ [ref]) h));;
    ret true
  else ret false.

Definition dvmHeapGetNextObjectFromLargeTable (f : TableField) : M ptr :=
  t <- gets (fun w => table f (the_gcHeap w)) ;;
  match t with
  | [] => ret NULL
  | obj :: rest => modify (with_gcHeap (set_table f rest));; ret (Some obj)
  end.

(** ** [Heap.c] *)

(** [bool dvmLockHeap()] *)
Definition dvmLockHeap : M bool :=
  rc <- call (dvmTryLockMutex gcHeapLock) ;;
  when (negb (rc =? 0)%Z)
    (self <- dvmThreadSelf ;;
     oldStatus <- call (dvmChangeStatus self THREAD_VMWAIT) ;;
     call (dvmLockMutex gcHeapLock);;
     call (dvmChangeStatus self oldStatus);;
     ret tt);;
  ret true.

(** [void dvmUnlockHeap()] *)
Definition dvmUnlockHeap : M unit :=
  call (dvmUnlockMutex gcHeapLock).

(** [Object *dvmGetNextHeapWorkerObject(HeapWorkerOperation *op)].  The
    out-parameter is passed in with the value the caller's variable holds
    and handed back with the value it holds on return; [assert(op != NULL)]
    is what makes that reading sound. *)
Definition dvmGetNextHeapWorkerObject (op : HeapWorkerOperation)
  : M (ptr * HeapWorkerOperation) :=
  call (dvmLockMutex heapWorkerListLock);;
  obj <- dvmHeapGetNextObjectFromLargeTable ReferenceOperations ;;
  '(obj, op) <-
    (if negb (is_null obj) then
       ret (obj, WORKER_ENQUEUE)
     else
       obj <- dvmHeapGetNextObjectFromLargeTable PendingFinalizationRefs ;;
       if negb (is_null obj) then ret (obj, WORKER_FINALIZE)
       else ret (obj, op)) ;;
  when (negb (is_null obj))
    (call (dvmAddTrackedAlloc obj ThreadNULL));;
  call (dvmUnlockMutex heapWorkerListLock);;
  ret (obj, op).

(** [static void verifyRootsAndHeap(void)] *)
Definition verifyRootsAndHeap : M unit :=
  call dvmVerifyRoots;;
  bits <- query dvmHeapSourceGetLiveBits ;;
  call (dvmVerifyBitmap bits).

(** [MAX(a, b)], the usual [(((a)>(b))?(a):(b))]. *)
Definition MAX (a b : N) : N := if (b <? a)%N then a else b.

(** A collaborator that aborts the VM instead of returning. *)
Definition must (c : ExtCall bool) : M unit :=
  ok <- call c ;;
  if ok then ret tt else fun s => Aborted s.

(** [dvmCollectGarbageInternal], lines 568-596: raise the priority of the
    collecting thread; the value left in [oldThreadPriority]. *)
Definition elevatePriority : M Z :=
  '(priorityResult, errno) <- call getpriority ;;
  if negb (errno =? 0)%Z then
    msg <- query (strerror errno) ;;
    LOGI_HEAP "getpriority(self) failed: %s\n" [ArgS msg];;
    ret kInvalidPriority
  else if (priorityResult >? ANDROID_PRIORITY_NORMAL)%Z then
    when (priorityResult >=? ANDROID_PRIORITY_BACKGROUND)%Z
      (tid <- query dvmGetSysThreadId ;;
       call (set_sched_policy tid SP_FOREGROUND));;
    '(rc, _) <- call (setpriority ANDROID_PRIORITY_NORMAL) ;;
    if negb (rc =? 0)%Z then
      LOGI_HEAP "Unable to elevate priority from %d to %d\n"
        [ArgZ priorityResult; ArgZ ANDROID_PRIORITY_NORMAL];;
      ret kInvalidPriority
    else
      LOGD_HEAP "Elevating priority from %d to %d\n"
        [ArgZ priorityResult; ArgZ ANDROID_PRIORITY_NORMAL];;
      ret priorityResult
  else ret kInvalidPriority.

(** [dvmCollectGarbageInternal], lines 777-788. *)
Definition restorePriority (oldThreadPriority : Z) : M unit :=
  when (negb (oldThreadPriority =? kInvalidPriority)%Z)
    ('(rc, errno) <- call (setpriority oldThreadPriority) ;;
     (if negb (rc =? 0)%Z then
        msg <- query (strerror errno) ;;
        LOGW_HEAP "Unable to reset priority to %d: %s\n"
          [ArgZ oldThreadPriority; ArgS msg]
      else
        LOGD_HEAP "Reset priority to %d\n" [ArgZ oldThreadPriority]);;
     when (oldThreadPriority >=? ANDROID_PRIORITY_BACKGROUND)%Z
       (tid <- query dvmGetSysThreadId ;;
        call (set_sched_policy tid SP_BACKGROUND))).

(** [dvmCollectGarbageInternal], lines 791-816: the line logged for the
    cycle, from the values the locals hold at that point. *)
Definition gcReport (reason : GcReason)
    (numBytesFreed currAllocated currFootprint : size_t)
    (rootSuspendTime rootStart rootEnd dirtySuspend dirtyStart dirtyEnd : Z)
  : M unit :=
  let percentFree :=
    u4 (100 - Z.of_N (float_percent currAllocated currFootprint)) in
  if negb (GcReason_eqb reason GC_CONCURRENT) then
    let markSweepTime := u4 (dirtyEnd - rootStart) in
    let isSmall := ((0 <? numBytesFreed) && (numBytesFreed <? 1024))%N in
    let totalTime := u4 (rootSuspendTime + markSweepTime) in
    LOGD "%s freed %s%zdK, %d%% free %zdK/%zdK, paused %ums"
      [ArgS (GcReasonStr reason);
       ArgS (if isSmall then "<" else EmptyString);
       ArgN (if negb (numBytesFreed =? 0)%N
             then MAX (numBytesFreed / 1024) 1 else 0%N);
       ArgZ percentFree;
       ArgN (currAllocated / 1024); ArgN (currFootprint / 1024);
       ArgZ markSweepTime]
  else
    let rootTime := u4 (rootEnd - rootStart) in
    let dirtySuspendTime := u4 (dirtyStart - dirtySuspend) in
    let dirtyTime := u4 (dirtyEnd - dirtyStart) in
    let isSmall := ((0 <? numBytesFreed) && (numBytesFreed <? 1024))%N in
    let totalTime :=
      u4 (rootSuspendTime + rootTime + dirtySuspendTime + dirtyTime) in
    LOGD "%s freed %s%zdK, %d%% free %zdK/%zdK, paused %ums+%ums"
      [ArgS (GcReasonStr reason);
       ArgS (if isSmall then "<" else EmptyString);
       ArgN (if negb (numBytesFreed =? 0)%N
             then MAX (numBytesFreed / 1024) 1 else 0%N);
       ArgZ percentFree;
       ArgN (currAllocated / 1024); ArgN (currFootprint / 1024);
       ArgZ rootTime; ArgZ dirtyTime].

(** [dvmCollectGarbageInternal], lines 817-828. *)
Definition ddmDumps : M unit :=
  hpif <- gets (fun w => ddmHpifWhen (the_gcHeap w)) ;;
  when (negb (hpif =? 0)%Z)
    (LOGD_HEAP "Sending VM heap info to DDM\n" [];;
     call (dvmDdmSendHeapInfo hpif false));;
  hpsg <- gets (fun w => ddmHpsgWhen (the_gcHeap w)) ;;
  when (negb (hpsg =? 0)%Z)
    (LOGD_HEAP "Dumping VM heap to DDM\n" [];;
     call (dvmDdmSendHeapSegments false false));;
  nhsg <- gets (fun w => ddmNhsgWhen (the_gcHeap w)) ;;
  when (negb (nhsg =? 0)%Z)
    (LOGD_HEAP "Dumping native heap to DDM\n" [];;
     call (dvmDdmSendHeapSegments false true)).

(** [void dvmCollectGarbageInternal(bool clearSoftRefs, GcReason reason)].
    A local that the path taken never assigns ([rootEnd], [dirtySuspend]
    and [dirtyStart] when the collection is not concurrent) is read by no
    statement of that path; it appears as [0]. *)
Definition dvmCollectGarbageInternal (clearSoftRefs : bool)
    (reason : GcReason) : M unit :=
  running <- gets (fun w => gcRunning (the_gcHeap w)) ;;
  if running then
    LOGW_HEAP "Attempted recursive GC\n" []
  else
    let gcMode :=
      if GcReason_eqb reason GC_FOR_MALLOC then GC_PARTIAL else GC_FULL in
    let concurrent := GcReason_eqb reason GC_CONCURRENT in
    modify (with_gcHeap (set_gcRunning true));;
    call (dvmLockMutex heapWorkerLock);;
    rootSuspend <- call dvmGetRelativeTimeMsec ;;
    call (dvmSuspendAllThreads SUSPEND_FOR_GC);;
    rootStart <- call dvmGetRelativeTimeMsec ;;
    let rootSuspendTime := u4 (rootStart - rootSuspend) in
    oldThreadPriority <-
      (if negb concurrent then elevatePriority else ret kInvalidPriority) ;;
    must dvmAssertHeapWorkerThreadRunning;;
    call (dvmLockMutex heapWorkerListLock);;
    pre <- gets (fun w => preVerify (gDvm w)) ;;
    when pre
      (LOGV_HEAP "Verifying roots and heap before GC" [];;
       verifyRootsAndHeap);;
    call dvmMethodTraceGCBegin;;
    began <- yield (dvmHeapBeginMarkStep gcMode) ;;
    when (negb began)
      (LOGE_HEAP "dvmHeapBeginMarkStep failed; aborting\n" [];;
       dvmAbort);;
    LOGD_HEAP "Marking..." [];;
    yield dvmHeapMarkRootSet;;
    modify (with_gcHeap clear_referenceLists);;
    rootEnd <-
      (if concurrent then
         t <- call dvmGetRelativeTimeMsec ;;
         call dvmClearCardTable;;
         dvmUnlockHeap;;
         call (dvmResumeAllThreads SUSPEND_FOR_GC);;
         ret t
       else ret 0%Z) ;;
    LOGD_HEAP "Recursing..." [];;
    yield dvmHeapScanMarkedObjects;;
    '(dirtySuspend, dirtyStart) <-
      (if concurrent then
         dvmLockHeap;;
         t1 <- call dvmGetRelativeTimeMsec ;;
         call (dvmSuspendAllThreads SUSPEND_FOR_GC);;
         t2 <- call dvmGetRelativeTimeMsec ;;
         yield dvmHeapReMarkRootSet;;
         vct <- gets (fun w => verifyCardTable (gDvm w)) ;;
         when vct (call dvmVerifyCardTable);;
         yield dvmHeapReScanMarkedObjects;;
         ret (t1, t2)
       else ret (0%Z, 0%Z)) ;;
    yield (dvmHeapProcessReferences clearSoftRefs);;
    when WITH_JIT (call dvmCompilerPerformSafePointChecks);;
    LOGD_HEAP "Sweeping..." [];;
    yield dvmHeapSweepSystemWeaks;;
    call dvmHeapSourceSwapBitmaps;;
    post <- gets (fun w => postVerify (gDvm w)) ;;
    when post
      (LOGV_HEAP "Verifying roots and heap after GC" [];;
       verifyRootsAndHeap);;
    dirtyEnd <-
      (if concurrent then
         t <- call dvmGetRelativeTimeMsec ;;
         dvmUnlockHeap;;
         call (dvmResumeAllThreads SUSPEND_FOR_GC);;
         ret t
       else ret 0%Z) ;;
    '(numObjectsFreed, numBytesFreed) <-
      yield (dvmHeapSweepUnmarkedObjects gcMode concurrent) ;;
    LOGD_HEAP "Cleaning up..." [];;
    yield dvmHeapFinishMarkStep;;
    when concurrent (dvmLockHeap;; ret tt);;
    LOGD_HEAP "Done." [];;
    call dvmHeapSourceGrowForUtilization;;
    currAllocated <- query (dvmHeapSourceGetValue HS_BYTES_ALLOCATED) ;;
    currFootprint <- query (dvmHeapSourceGetValue HS_FOOTPRINT) ;;
    call (dvmScheduleHeapSourceTrim 5);;
    call dvmMethodTraceGCEnd;;
    LOGV_HEAP "GC finished" [];;
    modify (with_gcHeap (set_gcRunning false));;
    LOGV_HEAP "Resuming threads" [];;
    call (dvmUnlockMutex heapWorkerListLock);;
    call (dvmUnlockMutex heapWorkerLock);;
    when concurrent (call (dvmBroadcastCond gcHeapCond));;
    dirtyEnd <-
      (if negb concurrent then
         t <- call dvmGetRelativeTimeMsec ;;
         call (dvmResumeAllThreads SUSPEND_FOR_GC);;
         restorePriority oldThreadPriority;;
         ret t
       else ret dirtyEnd) ;;
    gcReport reason numBytesFreed currAllocated currFootprint
      rootSuspendTime rootStart rootEnd dirtySuspend dirtyStart dirtyEnd;;
    ddmDumps.

(** [void dvmWaitForConcurrentGcToComplete(void)].  The [while] loop runs
    on fuel: one unit for each time its body is entered. *)
Fixpoint waitWhileGcRunning (fuel : nat) (self : ThreadPtr) : M unit :=
  running <- gets (fun w => gcRunning (the_gcHeap w)) ;;
  if running then
    match fuel with
    | O => fun s => Spinning s
    | S fuel' =>
        oldStatus <- call (dvmChangeStatus self THREAD_VMWAIT) ;;
        yield (dvmWaitCond gcHeapCond gcHeapLock);;
        call (dvmChangeStatus self oldStatus);;
        waitWhileGcRunning fuel' self
    end
  else ret tt.

Definition dvmWaitForConcurrentGcToComplete (fuel : nat) : M unit :=
  self <- dvmThreadSelf ;;
  assert (negb (thread_is_null self));;
  waitWhileGcRunning fuel self.

(** [static void gcForMalloc(bool collectSoftReferences)] *)
Definition gcForMalloc (collectSoftReferences : bool) : M unit :=
  profiling <- gets (fun w => enabled (allocProf (gDvm w))) ;;
  when profiling
    (self <- dvmThreadSelf ;;
     modify (with_allocProf bump_gcCount);;
     when (negb (thread_is_null self))
       (modify (with_self
          (fun t => set_thread_allocProf (bump_gcCount (thread_allocProf t)) t))));;
  LOGD_HEAP "dvmMalloc initiating GC%s\n"
    [ArgS (if collectSoftReferences then "(collect SoftReferences)" else EmptyString)];;
  dvmCollectGarbageInternal collectSoftReferences GC_FOR_MALLOC.

(** [tryMalloc], from the label [collect_soft_refs] to the end. *)
Definition collect_soft_refs (size : size_t) : M ptr :=
  LOGI_HEAP "Forcing collection of SoftReferences for %zu-byte allocation\n"
    [ArgN size];;
  gcForMalloc true;;
  ptr <- call (dvmHeapSourceAllocAndGrow size) ;;
  if negb (is_null ptr) then ret ptr
  else
    LOGE_HEAP "Out of memory on a %zd-byte allocation.\n" [ArgN size];;
    self <- dvmThreadSelf ;;
    query (dvmDumpThread self false);;
    ret NULL.

(** [static void *tryMalloc(size_t size)] *)
Definition tryMalloc (fuel : nat) (size : size_t) : M ptr :=
  limit <- gets (fun w => heapGrowthLimit (gDvm w)) ;;
  if (limit <=? size)%N then
    LOGW_HEAP "dvmMalloc(%zu/0x%08zx): someone's allocating a huge buffer\n"
      [ArgN size; ArgN size];;
    collect_soft_refs size
  else
    ptr <- call (dvmHeapSourceAlloc size) ;;
    if negb (is_null ptr) then ret ptr
    else
      running <- gets (fun w => gcRunning (the_gcHeap w)) ;;
      ptr <-
        (if running then
           dvmWaitForConcurrentGcToComplete fuel;;
           call (dvmHeapSourceAlloc size)
         else ret ptr) ;;
      if negb (is_null ptr) then ret ptr
      else
        gcForMalloc false;;
        ptr <- call (dvmHeapSourceAlloc size) ;;
        if negb (is_null ptr) then ret ptr
        else
          ptr <- call (dvmHeapSourceAllocAndGrow size) ;;
          if negb (is_null ptr) then
            newHeapSize <- query dvmHeapSourceGetIdealFootprint ;;
            LOGI_HEAP
              "Grow heap (frag case) to %zu.%03zuMB for %zu-byte allocation\n"
              [ArgN (fst (FRACTIONAL_MB newHeapSize));
               ArgN (snd (FRACTIONAL_MB newHeapSize)); ArgN size];;
            ret ptr
          else collect_soft_refs size.

(** [static void throwOOME()] *)
Definition throwOOME : M unit :=
  self <- dvmThreadSelf ;;
  when (negb (thread_is_null self))
    (onList <- query (dvmIsOnThreadList self) ;;
     throwing <-
       gets (fun w =>
               match curThread w with
               | Some t => throwingOOME t
               | None => false
               end) ;;
     (if onList && negb throwing then
        modify (with_self (set_throwingOOME true));;
        yield (dvmThrowException "Ljava/lang/OutOfMemoryError;" None)
      else
        oom <- gets (fun w => outOfMemoryObj (gDvm w)) ;;
        call (dvmSetException self oom));;
     modify (with_self (set_throwingOOME false))).

(** [dvmMalloc], lines 418-456: what is recorded, with the heap lock
    held, about the pointer [tryMalloc] has returned. *)
Definition recordAllocation (size : size_t) (flags : Z) (ptr : ptr)
  : M unit :=
  match ptr with
  | Some obj =>
      when (negb (Z.land flags ALLOC_FINALIZABLE =? 0)%Z)
        (added <- dvmHeapAddRefToLargeTable FinalizableRefs obj ;;
         when (negb added)
           (LOGE_HEAP
              "dvmMalloc(): no room for any more finalizable objects\n" [];;
            dvmAbort));;
      profiling <- gets (fun w => enabled (allocProf (gDvm w))) ;;
      when profiling
        (self <- dvmThreadSelf ;;
         modify (with_allocProf (bump_alloc size));;
         when (negb (thread_is_null self))
           (modify (with_self
              (fun t =>
                 set_thread_allocProf
                   (bump_alloc size (thread_allocProf t)) t))))
  | None =>
      profiling <- gets (fun w => enabled (allocProf (gDvm w))) ;;
      when profiling
        (self <- dvmThreadSelf ;;
         modify (with_allocProf (bump_failedAlloc size));;
         when (negb (thread_is_null self))
           (modify (with_self
              (fun t =>
                 set_thread_allocProf
                   (bump_failedAlloc size (thread_allocProf t)) t))))
  end.

(** [void* dvmMalloc(size_t size, int flags)] *)
Definition dvmMalloc (fuel : nat) (size : size_t) (flags : Z) : M ptr :=
  dvmLockHeap;;
  ptr <- tryMalloc fuel size ;;
  recordAllocation size flags ptr;;
  dvmUnlockHeap;;
  (if negb (is_null ptr) then
     when (Z.land flags ALLOC_DONT_TRACK =? 0)%Z
       (call (dvmAddTrackedAlloc ptr ThreadNULL))
   else throwOOME);;
  ret ptr.

(** [bool dvmIsValidObject(const Object* obj)] *)
Definition dvmIsValidObject (obj : ptr) : M bool :=
  if negb (is_null obj) && (Z.land (uintptr obj) (8 - 1) =? 0)%Z then
    query (dvmHeapSourceContains obj)
  else ret false.

(** [size_t dvmObjectSizeInHeap(const Object *obj)] *)
Definition dvmObjectSizeInHeap (obj : ptr) : M size_t :=
  query (dvmHeapSourceChunkSize obj).

End HeapC.

(** ** What a run shows *)

Section Observations.

Context {platform : Platform} {collaborators : Collaborators}.

Definition final_state {A} (o : Outcome A) : State :=
  match o with Done _ s => s | Aborted s => s | Spinning s => s end.

(** The events a run from [s] has added to the trace. *)
Definition new_events {A} (s : State) (o : Outcome A) : list Event :=
  skipn (List.length (trace s)) (trace (final_state o)).

(** The reference-processing step of a collection that keeps ([false]) or
    clears ([true]) soft references. *)
Definition is_reference_pass (clearSoftRefs : bool) (e : Event) : bool :=
  match e with
  | EvEnv c _ =>
      match c with
      | dvmHeapProcessReferences b => Bool.eqb b clearSoftRefs
      | _ => false
      end
  | _ => false
  end.

Definition is_suspend_all (e : Event) : bool :=
  match e with
  | EvCall c _ => match c with dvmSuspendAllThreads _ => true | _ => false end
  | _ => false
  end.

(** A call that leaves an [OutOfMemoryError] pending on the calling
    thread: [dvmThrowException] with that class, or [dvmSetException] on
    [self] with the pre-built object. *)
Definition raises_OOME (oom : ptr) (e : Event) : bool :=
  match e with
  | EvEnv c _ =>
      match c with
      | dvmThrowException d _ => String.eqb d "Ljava/lang/OutOfMemoryError;"
      | _ => false
      end
  | EvCall c _ =>
      match c with
      | dvmSetException ThreadSelf (Some a) =>
          match oom with Some b => Pos.eqb a b | None => false end
      | _ => false
      end
  | _ => false
  end.

(** Any call that sets an exception at all. *)
Definition sets_exception (e : Event) : bool :=
  match e with
  | EvEnv c _ => match c with dvmThrowException _ _ => true | _ => false end
  | EvCall c _ => match c with dvmSetException _ _ => true | _ => false end
  | _ => false
  end.

(** The per-cycle report of the GC driver: the log lines with one of its
    two formats. *)
Definition report_single : string :=
  "%s freed %s%zdK, %d%% free %zdK/%zdK, paused %ums".
Definition report_concurrent : string :=
  "%s freed %s%zdK, %d%% free %zdK/%zdK, paused %ums+%ums".

Definition is_gc_report (e : Event) : bool :=
  match e with
  | EvLog LOG_DEBUG false fmt _ =>
      String.eqb fmt report_single || String.eqb fmt report_concurrent
  | _ => false
  end.

(** ** A worker polling the hand-off queue

    [n] calls of [dvmGetNextHeapWorkerObject] in a row, each with the [op]
    variable as the previous call left it; the answers in order. *)
Fixpoint poll (n : nat) (op : HeapWorkerOperation)
  : M (list (ptr * HeapWorkerOperation)) :=
  match n with
  | O => ret []
  | S n' =>
      r <- dvmGetNextHeapWorkerObject op ;;
      rs <- poll n' (snd r) ;;
      ret (r :: rs)
  end.

(** ** The wait loop, one round at a time *)

(** The body of the [while] of [dvmWaitForConcurrentGcToComplete]. *)
Definition waitRound (self : ThreadPtr) : M unit :=
  oldStatus <- call (dvmChangeStatus self THREAD_VMWAIT) ;;
  yield (dvmWaitCond gcHeapCond gcHeapLock);;
  call (dvmChangeStatus self oldStatus);;
  ret tt.

(** The state after [n] rounds from [s]. *)
Fixpoint after_rounds (n : nat) (self : ThreadPtr) (s : State) : State :=
  match n with
  | O => s
  | S n' => after_rounds n' self (final_state (waitRound self s))
  end.

Definition running_in (s : State) : bool := gcRunning (the_gcHeap (world s)).

(** ** Relating runs *)

Definition prepend (t : list Event) (s : State) : State :=
  mkState (world s) (t ++ trace s).

Definition map_outcome {A} (f : State -> State) (o : Outcome A) : Outcome A :=
  match o with
  | Done a s => Done a (f s)
  | Aborted s => Aborted (f s)
  | Spinning s => Spinning (f s)
  end.

(** [m] looks at the world and never at the trace, which it only extends,
    and only by events that satisfy [p]. *)
Definition emits {A} (p : Event -> bool) (m : M A) : Prop :=
  forall w t,
    m (mkState w t) = map_outcome (prepend t) (m (mkState w []))
    /\ forallb p (trace (final_state (m (mkState w [])))) = true.

Definition any_event (e : Event) : bool := true.

(** If [m] returns from a state in [P], it returns in [Q]. *)
Definition hoare {A} (P : State -> Prop) (m : M A) (Q : A -> State -> Prop)
  : Prop :=
  forall s, P s -> match m s with Done a s' => Q a s' | _ => True end.

(** The events of a poll of the heap-worker queue. *)
Definition lock_event : Event :=
  EvCall (dvmLockMutex heapWorkerListLock) tt.
Definition unlock_event : Event :=
  EvCall (dvmUnlockMutex heapWorkerListLock) tt.
Definition tracked_event (obj : addr) : Event :=
  EvCall (dvmAddTrackedAlloc (Some obj) ThreadNULL) tt.

Definition is_tracked_alloc (e : Event) : bool :=
  match e with
  | EvCall c _ => match c with dvmAddTrackedAlloc _ _ => true | _ => false end
  | _ => false
  end.

(** What [dvmThreadSelf()] returns in [s]. *)
Definition self_of (s : State) : ThreadPtr :=
  match curThread (world s) with Some _ => ThreadSelf | None => ThreadNULL end.

(** [dvmMalloc] from [dvmLockHeap()] to [dvmUnlockHeap()]: what it does
    with the heap lock held; the pointer [tryMalloc] gave. *)
Definition dvmMalloc_locked (fuel : nat) (size : size_t) (flags : Z)
  : M ptr :=
  dvmLockHeap;;
  ptr <- tryMalloc fuel size ;;
  recordAllocation size flags ptr;;
  dvmUnlockHeap;;
  ret ptr.

(** [dvmMalloc] after [dvmUnlockHeap()]. *)
Definition dvmMalloc_unlocked (flags : Z) (p : ptr) : M ptr :=
  (if negb (is_null p) then
     when (Z.land flags ALLOC_DONT_TRACK =? 0)%Z
       (call (dvmAddTrackedAlloc p ThreadNULL))
   else throwOOME);;
  ret p.

(** The two ways [throwOOME] sets the exception of [self]. *)
Definition throw_fresh_OOME : Event :=
  EvEnv (dvmThrowException "Ljava/lang/OutOfMemoryError;" None) tt.
Definition set_prebuilt_OOME (oom : ptr) : Event :=
  EvCall (dvmSetException ThreadSelf oom) tt.

Definition is_sweep (e : Event) : bool :=
  match e with
  | EvEnv c _ =>
      match c with dvmHeapSweepUnmarkedObjects _ _ => true | _ => false end
  | _ => false
  end.

(** Neither the sweep nor the report of a collection. *)
Definition quiet (e : Event) : bool := negb (is_sweep e) && negb (is_gc_report e).

(** From [s0] to [s] the trace has grown, by events of which the sweeps
    are [S] and the reports are [R]. *)
Definition tracks (s0 s : State) (S R : list Event) : Prop :=
  exists evs,
    trace s = trace s0 ++ evs
    /\ filter is_sweep evs = S /\ filter is_gc_report evs = R.

(** ** Views of a trace

    A view names the events it is interested in and drops the others. *)
Fixpoint view {L : Type} (v : Event -> option L) (t : list Event) : list L :=
  match t with
  | [] => []
  | e :: t' =>
      match v e with
      | Some l => l :: view v t'
      | None => view v t'
      end
  end.

Definition hidden {L : Type} (v : Event -> option L) (e : Event) : bool :=
  match v e with Some _ => false | None => true end.

(** When [m] returns, the events it has added to the trace look like [l]
    through the view [v]. *)
Definition shows {A L : Type} (v : Event -> option L) (l : list L) (m : M A)
  : Prop :=
  forall s x s',
    m s = Done x s' ->
    exists evs, trace s' = trace s ++ evs /\ view v evs = l.

(** [m] always returns. *)
Definition returns {A : Type} (m : M A) : Prop :=
  forall s, exists x s', m s = Done x s'.

(** [m] leaves the fields of [gDvm] and of the thread alone. *)
Definition keeps_vm {A : Type} (m : M A) : Prop :=
  forall s,
    gDvm (world (final_state (m s))) = gDvm (world s)
    /\ curThread (world (final_state (m s))) = curThread (world s).

(** [m] does not wait for ever, and if it aborts, the events it has added
    to the trace satisfy [p]. *)
Definition aborts_within {A : Type} (p : Event -> bool) (m : M A) : Prop :=
  forall s,
    match m s with
    | Done _ _ => True
    | Aborted s' =>
        exists evs, trace s' = trace s ++ evs /\ forallb p evs = true
    | Spinning _ => False
    end.

(** The steps of a collection cycle: the stops and restarts of the
    mutators, and the calls into the mark-sweep engine, the card table and
    the heap source that do the collecting. *)
Inductive CycleStep :=
| SuspendAll | ResumeAll
| BeginMark (mode : GcMode) | MarkRoots | ClearCards | Scan
| ReMarkRoots | ReScan | ProcessReferences (clearSoftRefs : bool)
| SweepSystemWeaks | SwapBitmaps
| SweepUnmarked (mode : GcMode) (concurrent : bool) | FinishMark
| GrowForUtilization | ScheduleTrim (timeoutSec : Z).

Definition cycle_view (e : Event) : option CycleStep :=
  match e with
  | EvCall c _ =>
      match c with
      | dvmSuspendAllThreads _ => Some SuspendAll
      | dvmResumeAllThreads _ => Some ResumeAll
      | dvmClearCardTable => Some ClearCards
      | dvmHeapSourceSwapBitmaps => Some SwapBitmaps
      | dvmHeapSourceGrowForUtilization => Some GrowForUtilization
      | dvmScheduleHeapSourceTrim t => Some (ScheduleTrim t)
      | _ => None
      end
  | EvEnv c _ =>
      match c with
      | dvmHeapBeginMarkStep mode => Some (BeginMark mode)
      | dvmHeapMarkRootSet => Some MarkRoots
      | dvmHeapReMarkRootSet => Some ReMarkRoots
      | dvmHeapScanMarkedObjects => Some Scan
      | dvmHeapReScanMarkedObjects => Some ReScan
      | dvmHeapProcessReferences b => Some (ProcessReferences b)
      | dvmHeapSweepSystemWeaks => Some SweepSystemWeaks
      | dvmHeapSweepUnmarkedObjects mode conc => Some (SweepUnmarked mode conc)
      | dvmHeapFinishMarkStep => Some FinishMark
      | _ => None
      end
  | _ => None
  end.

(** What happens to the locks.  Every [dvmLockMutex] is an acquisition,
    and so is a [dvmTryLockMutex] that returns 0; one that fails acquires
    nothing and is not shown. *)
Inductive LockStep :=
| Acquire (m : Mutex) | Release (m : Mutex)
| Broadcast (c : Cond) | WaitOn (c : Cond) (m : Mutex).

Definition lock_view (e : Event) : option LockStep :=
  match e with
  | EvCall c r =>
      match c in ExtCall R return R -> option LockStep with
      | dvmTryLockMutex m =>
          fun rc => if (rc =? 0)%Z then Some (Acquire m) else None
      | dvmLockMutex m => fun _ => Some (Acquire m)
      | dvmUnlockMutex m => fun _ => Some (Release m)
      | dvmBroadcastCond c => fun _ => Some (Broadcast c)
      | _ => fun _ => None
      end r
  | EvEnv c _ =>
      match c with
      | dvmWaitCond c m => Some (WaitOn c m)
      | _ => None
      end
  | _ => None
  end.

(** Any call on the heap lock itself: an attempt to take it, whether it
    succeeds or not, a blocking lock, or a release. *)
Definition on_heap_lock (e : Event) : bool :=
  match e with
  | EvCall c _ =>
      match c with
      | dvmTryLockMutex gcHeapLock => true
      | dvmLockMutex gcHeapLock => true
      | dvmUnlockMutex gcHeapLock => true
      | _ => false
      end
  | _ => false
  end.


(** Calls that read or change the priority or the scheduling policy of
    the calling thread. *)
Definition is_priority_call (e : Event) : bool :=
  match e with
  | EvCall c _ =>
      match c with
      | getpriority => true
      | setpriority _ => true
      | set_sched_policy _ _ => true
      | _ => false
      end
  | _ => false
  end.


(** The native allocation of a table entry. *)
Definition is_table_room (e : Event) : bool :=
  match e with
  | EvCall c _ => match c with largeTableRoom _ => true | _ => false end
  | _ => false
  end.

(** What an allocation must not do to the heap lock or ask of the
    collector: call anything on the lock itself (try, lock or unlock),
    signal the condition, or start a collection that is full or
    concurrent.  The wait on the condition variable is the one thing it
    may do with the lock. *)
Definition allowed_under_heap_lock (e : Event) : bool :=
  negb (on_heap_lock e)
  && match lock_view e with
     | Some (Broadcast _) => false
     | _ => true
     end
  && match cycle_view e with
     | Some (BeginMark GC_FULL) => false
     | Some (SweepUnmarked GC_FULL _) => false
     | Some (SweepUnmarked _ true) => false
     | Some ClearCards => false
     | Some ReMarkRoots => false
     | Some ReScan => false
     | _ => true
     end.

(** The shape of a cycle: the steps of a collection with the given
    arguments that runs to its end. *)
Definition cycle_of (clearSoftRefs : bool) (reason : GcReason)
  : list CycleStep :=
  let mode :=
    match reason with GC_FOR_MALLOC => GC_PARTIAL | _ => GC_FULL end in
  match reason with
  | GC_CONCURRENT =>
      [SuspendAll; BeginMark mode; MarkRoots; ClearCards; ResumeAll;
       Scan;
       SuspendAll; ReMarkRoots; ReScan;
       ProcessReferences clearSoftRefs; SweepSystemWeaks; SwapBitmaps;
       ResumeAll;
       SweepUnmarked mode true; FinishMark;
       GrowForUtilization; ScheduleTrim 5]
  | _ =>
      [SuspendAll; BeginMark mode; MarkRoots;
       Scan;
       ProcessReferences clearSoftRefs; SweepSystemWeaks; SwapBitmaps;
       SweepUnmarked mode false; FinishMark;
       GrowForUtilization; ScheduleTrim 5;
       ResumeAll]
  end.

(** The locks of a cycle. *)
Definition locks_of (reason : GcReason) : list LockStep :=
  match reason with
  | GC_CONCURRENT =>
      [Acquire heapWorkerLock; Acquire heapWorkerListLock;
       Release gcHeapLock; Acquire gcHeapLock;
       Release gcHeapLock; Acquire gcHeapLock;
       Release heapWorkerListLock; Release heapWorkerLock;
       Broadcast gcHeapCond]
  | _ =>
      [Acquire heapWorkerLock; Acquire heapWorkerListLock;
       Release heapWorkerListLock; Release heapWorkerLock]
  end.

(** Soft references are the last resort of an allocation. *)
Definition keeps_soft (e : Event) : bool := negb (is_reference_pass true e).

Definition grow_failed (size : size_t) : Event :=
  EvCall (dvmHeapSourceAllocAndGrow size) NULL.

(** If [evs] holds a reference pass that clears soft references, a failed
    [dvmHeapSourceAllocAndGrow(size)] comes before the first one. *)
Definition soft_cleared_after_failed_growth (size : size_t)
    (evs : list Event) : Prop :=
  existsb (is_reference_pass true) evs = true ->
  exists before after,
    evs = before ++ grow_failed size :: after
    /\ existsb (is_reference_pass true) before = false.

Definition last_resort {A : Type} (size : size_t) (m : M A) : Prop :=
  forall s,
    exists evs,
      trace (final_state (m s)) = trace s ++ evs
      /\ soft_cleared_after_failed_growth size evs.

(** The calls of a collection that read or change the priority and the
    scheduling policy of the thread that runs it. *)
Inductive PriorityStep :=
| GetPriority (result errno : Z)
| SetPriority (prio rc : Z)
| SetSchedPolicy (policy : SchedPolicy).

Definition priority_view (e : Event) : option PriorityStep :=
  match e with
  | EvCall c r =>
      match c in ExtCall R return R -> option PriorityStep with
      | getpriority => fun r => Some (GetPriority (fst r) (snd r))
      | setpriority prio => fun r => Some (SetPriority prio (fst r))
      | set_sched_policy _ policy => fun _ => Some (SetSchedPolicy policy)
      | _ => fun _ => None
      end r
  | _ => None
  end.

(** What [dvmCollectGarbageInternal] does to raise the priority when
    [getpriority] has answered [result] with [errno], and [setpriority],
    if called, [rc]. *)
Definition elevate_steps (result errno rc : Z) : list PriorityStep :=
  GetPriority result errno ::
  (if (errno =? 0)%Z && (result >? ANDROID_PRIORITY_NORMAL)%Z then
     (if (result >=? ANDROID_PRIORITY_BACKGROUND)%Z
      then [SetSchedPolicy SP_FOREGROUND] else [])
     ++ [SetPriority ANDROID_PRIORITY_NORMAL rc]
   else []).

(** The value [oldThreadPriority] holds after that. *)
Definition saved_priority (result errno rc : Z) : Z :=
  if (errno =? 0)%Z && (result >? ANDROID_PRIORITY_NORMAL)%Z && (rc =? 0)%Z
  then result else kInvalidPriority.

(** What it does at the end to put back a priority it has saved. *)
Definition restore_steps (old rc : Z) : list PriorityStep :=
  if (old =? kInvalidPriority)%Z then []
  else
    SetPriority old rc ::
    (if (old >=? ANDROID_PRIORITY_BACKGROUND)%Z
     then [SetSchedPolicy SP_BACKGROUND] else []).

(** When [m] returns [x], the events it has added to the trace look
    through the view [v] like a list that satisfies [P x]. *)
Definition shows_some {A L : Type} (v : Event -> option L)
    (P : A -> list L -> Prop) (m : M A) : Prop :=
  forall s x s',
    m s = Done x s' ->
    exists evs, trace s' = trace s ++ evs /\ P x (view v evs).

(** ** The allocation ladder in the spec's words

    The steps of the ladder act through the collaborators: the heap
    source's [alloc] and [alloc_and_grow], the wait on the GC-done
    condition, and the steps of a collection cycle.  These are the events
    a step shows. *)
Inductive LadderEvent :=
| Alloc (size : size_t) (result : ptr)
| AllocAndGrow (size : size_t) (result : ptr)
| Wait (c : Cond) (m : Mutex)
| Gc (step : CycleStep).

Definition ladder_view (e : Event) : option LadderEvent :=
  match e with
  | EvCall c r =>
      match c in ExtCall R return R -> option LadderEvent with
      | dvmHeapSourceAlloc n => fun r => Some (Alloc n r)
      | dvmHeapSourceAllocAndGrow n => fun r => Some (AllocAndGrow n r)
      | _ => fun _ => option_map Gc (cycle_view e)
      end r
  | EvEnv c _ =>
      match c with
      | dvmWaitCond c m => Some (Wait c m)
      | _ => option_map Gc (cycle_view e)
      end
  | _ => None
  end.

(** "run a foreground GC with clear_soft_refs": one whole cycle of a
    collection for an allocation, the mutators suspended from its first
    step to its last. *)
Definition foreground_gc (clearSoftRefs : bool) : list LadderEvent :=
  map Gc (cycle_of clearSoftRefs GC_FOR_MALLOC).

(** "wait for the concurrent GC to complete": [n] waits on the GC-done
    condition, which is paired with the heap lock. *)
Definition wait_for_gc (n : nat) : list LadderEvent :=
  repeat (Wait gcHeapCond gcHeapLock) n.

(** "(1) heap_source alloc(size); (2) if the GC running flag is set, wait
    for the concurrent GC to complete and retry alloc(size); (3) run a
    foreground GC with clear_soft_refs=false and retry alloc(size);
    (4) alloc_and_grow(size); (5) run a GC with clear_soft_refs=true and
    retry alloc_and_grow(size)".  Each step is given by what it shows and
    the pointer it yields, for the results [r1] to [r5] of the five
    attempts and the number of waits; a step that does not apply shows
    nothing and yields [NULL]. *)
Definition ladder_steps (running : bool) (waits : nat) (size : size_t)
    (r1 r2 r3 r4 r5 : ptr) : list (list LadderEvent * ptr) :=
  [ ([Alloc size r1], r1);
    (if running then (wait_for_gc waits ++ [Alloc size r2], r2)
     else ([], NULL));
    (foreground_gc false ++ [Alloc size r3], r3);
    ([AllocAndGrow size r4], r4);
    (foreground_gc true ++ [AllocAndGrow size r5], r5) ].

(** "returns the first non-null result of the following sequence, tried
    strictly in this order; it returns null only after all of these have
    failed": what the steps up to the first one that yields a non-null
    pointer show, and that pointer. *)
Fixpoint first_success (steps : list (list LadderEvent * ptr))
  : list LadderEvent * ptr :=
  match steps with
  | [] => ([], NULL)
  | (shown, r) :: rest =>
      if is_null r then
        (shown ++ fst (first_success rest), snd (first_success rest))
      else (shown, r)
  end.

(** The outcome [o] of a run from [s] is a climb of the ladder.  When it
    returns, it has shown exactly the steps up to the first success and
    returns that result, having waited at least once if a collection was
    running when the first attempt failed.  When it aborts, what it has
    shown is an initial part of the ladder.  It waits for ever only in
    the second step: after [fuel] waits the collection is still
    running. *)
Definition climbs_ladder (fuel : nat) (size : size_t) (s : State)
    (o : Outcome ptr) : Prop :=
  exists waits r1 r2 r3 r4 r5,
    let expected :=
      first_success (ladder_steps (running_in s) waits size r1 r2 r3 r4 r5) in
    let seen := view ladder_view (new_events s o) in
    match o with
    | Done p _ =>
        seen = fst expected /\ p = snd expected
        /\ (running_in s = true -> r1 = NULL -> 0 < waits)
    | Aborted _ => exists rest, fst expected = seen ++ rest
    | Spinning s' =>
        seen = Alloc size NULL :: wait_for_gc fuel
        /\ running_in s = true /\ running_in s' = true
    end.

(** The outcome [o] of a run from [s] is the last step of the ladder
    alone, as [tryMalloc] runs it: the collection that clears soft
    references when none is running in [s], and no collection at all when
    one is; then [alloc_and_grow], whose result is returned.  The run can
    abort only when it collects, having shown an initial part of the step,
    and never waits. *)
Definition runs_last_step (size : size_t) (s : State) (o : Outcome ptr)
  : Prop :=
  let gc := if running_in s then [] else foreground_gc true in
  let seen := view ladder_view (new_events s o) in
  match o with
  | Done p _ => seen = gc ++ [AllocAndGrow size p]
  | Aborted _ =>
      running_in s = false
      /\ exists r rest, gc ++ [AllocAndGrow size r] = seen ++ rest
  | Spinning _ => False
  end.

(** A run that ends in [o] has added [evs] to the trace of [s]; when it
    returns, [evs] look like [l] and the result satisfies [Q]; when it
    aborts, like an initial part of [l]; and it does not wait for ever. *)
Definition climbs {A L : Type} (v : Event -> option L) (l : list L)
    (Q : A -> State -> Prop) (s : State) (o : Outcome A) : Prop :=
  exists evs,
    trace (final_state o) = trace s ++ evs
    /\ match o with
       | Done x s' => view v evs = l /\ Q x s'
       | Aborted _ => exists rest, l = view v evs ++ rest
       | Spinning _ => False
       end.

(** [m] climbs [l] from every state. *)
Definition shows_upto {A L : Type} (v : Event -> option L) (l : list L)
    (m : M A) : Prop :=
  forall s, climbs v l (fun _ _ => True) s (m s).

End Observations.

(** ** A small set of collaborators to run the functions on

    A heap source that counts bytes: [free] bytes can be handed out as the
    footprint stands, [reserve] more by growing it; a sweep returns the
    [garbage], and the [soft] bytes too once a reference pass has cleared
    soft references.  A concurrent collection in flight finishes after
    [wakeups] waits on the condition variable. *)

Module Demo.

Inductive Status := RUNNING | VMWAIT.

Record Sim := mkSim {
  free : N;
  reserve : N;
  garbage : N;
  soft : N;
  used : N;
  next : positive;
  clock : Z;
  wakeups : nat;
  table_room : nat;
  priority : Z;
  status : Status;
  on_list : bool;
  pending_exception : bool
}.

#[export] Instance platform : Platform := {|
  Ext := Sim;
  ThreadStatus := Status;
  THREAD_VMWAIT := VMWAIT;
  HeapBitmapPtr := unit;
  ALLOC_DONT_TRACK := 1;
  ALLOC_FINALIZABLE := 2;
  ANDROID_PRIORITY_NORMAL := 0;
  ANDROID_PRIORITY_BACKGROUND := 10;
  FRACTIONAL_MB := fun n =>
    (n / (1024 * 1024), (n mod (1024 * 1024) / 1024 * 1000) / 1024)%N;
  float_percent := fun a f => (if f =? 0 then 0 else 100 * a / f)%N;
  NDEBUG := true;
  WITH_JIT := true
|}.

(** Hand out [n] bytes at [next]; the next address stays 8-byte aligned. *)
Definition take (n : N) (e : Sim) : Sim :=
  mkSim (free e - n) (reserve e) (garbage e) (soft e) (used e + n)
    (next e + 8 * N.succ_pos (n / 8)%N)%positive (clock e) (wakeups e) (table_room e)
    (priority e) (status e) (on_list e) (pending_exception e).

(** Move [n] bytes of the reserve under the footprint. *)
Definition grow (n : N) (e : Sim) : Sim :=
  mkSim (free e + n) (reserve e - n) (garbage e) (soft e) (used e)
    (next e) (clock e) (wakeups e) (table_room e)
    (priority e) (status e) (on_list e) (pending_exception e).

Definition tick (e : Sim) : Sim :=
  mkSim (free e) (reserve e) (garbage e) (soft e) (used e)
    (next e) (clock e + 1) (wakeups e) (table_room e)
    (priority e) (status e) (on_list e) (pending_exception e).

Definition set_status (st : Status) (e : Sim) : Sim :=
  mkSim (free e) (reserve e) (garbage e) (soft e) (used e)
    (next e) (clock e) (wakeups e) (table_room e)
    (priority e) st (on_list e) (pending_exception e).

Definition set_priority (p : Z) (e : Sim) : Sim :=
  mkSim (free e) (reserve e) (garbage e) (soft e) (used e)
    (next e) (clock e) (wakeups e) (table_room e)
    p (status e) (on_list e) (pending_exception e).

Definition set_wakeups (n : nat) (e : Sim) : Sim :=
  mkSim (free e) (reserve e) (garbage e) (soft e) (used e)
    (next e) (clock e) n (table_room e)
    (priority e) (status e) (on_list e) (pending_exception e).

Definition set_table_room (n : nat) (e : Sim) : Sim :=
  mkSim (free e) (reserve e) (garbage e) (soft e) (used e)
    (next e) (clock e) (wakeups e) n
    (priority e) (status e) (on_list e) (pending_exception e).

Definition set_pending_exception (e : Sim) : Sim :=
  mkSim (free e) (reserve e) (garbage e) (soft e) (used e)
    (next e) (clock e) (wakeups e) (table_room e)
    (priority e) (status e) (on_list e) true.

(** A reference pass that clears soft references turns the softly held
    bytes into garbage. *)
Definition clear_soft (e : Sim) : Sim :=
  mkSim (free e) (reserve e) (garbage e + soft e) 0 (used e)
    (next e) (clock e) (wakeups e) (table_room e)
    (priority e) (status e) (on_list e) (pending_exception e).

(** A sweep returns the garbage to the free bytes. *)
Definition sweep (e : Sim) : Sim :=
  mkSim (free e + garbage e) (reserve e) 0 (soft e) (used e - garbage e)
    (next e) (clock e) (wakeups e) (table_room e)
    (priority e) (status e) (on_list e) (pending_exception e).

Definition answer_query (R : Type) (q : Query R) (e : Sim) : R :=
  match q in Query R return R with
  | dvmHeapSourceGetIdealFootprint => (used e + free e)%N
  | dvmHeapSourceContains obj =>
      match obj with Some a => (a <? next e)%positive | None => false end
  | dvmHeapSourceChunkSize _ => 8%N
  | dvmHeapSourceGetValue HS_FOOTPRINT => (used e + free e)%N
  | dvmHeapSourceGetValue HS_BYTES_ALLOCATED => used e
  | dvmHeapSourceGetLiveBits => tt
  | dvmIsOnThreadList t =>
      match t with ThreadSelf => on_list e | ThreadNULL => false end
  | dvmGetSysThreadId => 1%Z
  | strerror _ => "error"%string
  | dvmDumpThread _ _ => tt
  end.

Definition answer_call (R : Type) (c : ExtCall R) (e : Sim) : R * Sim :=
  match c in ExtCall R return R * Sim with
  | dvmHeapSourceAlloc n =>
      if (n <=? free e)%N then (Some (next e), take n e) else (NULL, e)
  | dvmHeapSourceAllocAndGrow n =>
      if (n <=? free e)%N then (Some (next e), take n e)
      else if (n <=? free e + reserve e)%N
           then (Some (next e), take n (grow (n - free e) e))
           else (NULL, e)
  | dvmHeapSourceSwapBitmaps => (tt, e)
  | dvmHeapSourceGrowForUtilization => (tt, e)
  | dvmScheduleHeapSourceTrim _ => (tt, e)
  | dvmTryLockMutex _ => (0%Z, e)
  | dvmLockMutex _ => (tt, e)
  | dvmUnlockMutex _ => (tt, e)
  | dvmBroadcastCond _ => (tt, e)
  | dvmChangeStatus _ newStatus => (status e, set_status newStatus e)
  | dvmSuspendAllThreads _ => (tt, e)
  | dvmResumeAllThreads _ => (tt, e)
  | dvmAddTrackedAlloc _ _ => (tt, e)
  | dvmSetException _ _ => (tt, set_pending_exception e)
  | largeTableRoom _ =>
      match table_room e with
      | O => (false, e)
      | S n => (true, set_table_room n e)
      end
  | dvmGetRelativeTimeMsec => (clock e, tick e)
  | getpriority => ((priority e, 0%Z), e)
  | setpriority prio => ((0%Z, 0%Z), set_priority prio e)
  | set_sched_policy _ _ => (tt, e)
  | dvmAssertHeapWorkerThreadRunning => (true, e)
  | dvmVerifyRoots => (tt, e)
  | dvmVerifyBitmap _ => (tt, e)
  | dvmVerifyCardTable => (tt, e)
  | dvmClearCardTable => (tt, e)
  | dvmMethodTraceGCBegin => (tt, e)
  | dvmMethodTraceGCEnd => (tt, e)
  | dvmCompilerPerformSafePointChecks => (tt, e)
  | dvmDdmSendHeapInfo _ _ => (tt, e)
  | dvmDdmSendHeapSegments _ _ => (tt, e)
  end.

Definition on_ext (f : Sim -> Sim) (w : World) : World :=
  mkWorld (gDvm w) (curThread w) (f (ext w)).

(** A wait on the condition variable: the collection in flight finishes
    at the last of the [wakeups], and wakes the waiters once more for
    nothing before. *)
Definition wake (w : World) : World :=
  match wakeups (ext w) with
  | O => w
  | S O =>
      mkWorld (set_gcHeap (set_gcRunning false (gcHeap (gDvm w))) (gDvm w))
        (curThread w) (set_wakeups 0 (ext w))
  | S n => on_ext (set_wakeups n) w
  end.

Definition answer_env (R : Type) (c : EnvCall R) (w : World) : R * World :=
  match c in EnvCall R return R * World with
  | dvmWaitCond _ _ => (tt, wake w)
  | dvmThrowException _ _ => (tt, on_ext set_pending_exception w)
  | dvmHeapBeginMarkStep _ => (true, w)
  | dvmHeapMarkRootSet => (tt, w)
  | dvmHeapReMarkRootSet => (tt, w)
  | dvmHeapScanMarkedObjects => (tt, w)
  | dvmHeapReScanMarkedObjects => (tt, w)
  | dvmHeapProcessReferences clearSoftRefs =>
      (tt, if clearSoftRefs then on_ext clear_soft w else w)
  | dvmHeapSweepSystemWeaks => (tt, w)
  | dvmHeapSweepUnmarkedObjects _ _ =>
      ((garbage (ext w) / 16, garbage (ext w))%N, on_ext sweep w)
  | dvmHeapFinishMarkStep => (tt, w)
  end.

#[export] Instance collaborators : Collaborators := {|
  on_query := answer_query;
  on_call := answer_call;
  on_env := answer_env
|}.

(** A heap of 64 free bytes that can grow by 64, with 40 bytes of garbage
    and 100 bytes behind soft references; growth limit 1024. *)
Definition sim0 : Sim :=
  mkSim 64 64 40 100 200 4096 1000 0 4 0 RUNNING true false.

Definition noProf : AllocProfState := mkAllocProf false 0 0 0 0 0.
Definition prof : AllocProfState := mkAllocProf true 0 0 0 0 0.

Definition heap0 : GcHeap :=
  mkGcHeap false [] [] [] NULL NULL NULL 0 0 0.

Definition dvm0 : DvmGlobals :=
  mkDvmGlobals 1024%N heap0 prof false false false (Some 8%positive).

Definition thread0 : Thread := mkThread false noProf.

Definition start (g : DvmGlobals) (t : option Thread) (e : Sim) : State :=
  mkState (mkWorld g t e) [].

Definition s0 : State := start dvm0 (Some thread0) sim0.

(** The same with a concurrent collection in flight that takes three
    wakeups to finish. *)
Definition s_gc : State :=
  start (set_gcHeap (set_gcRunning true heap0) dvm0) (Some thread0)
    (set_wakeups 3 sim0).

(** A caller without a [Thread] structure. *)
Definition s_nothread : State := start dvm0 None sim0.

(** Work pending for the heap worker: object [16] both to enqueue and to
    finalize, object [24] to finalize. *)
Definition s_worker : State :=
  start (set_gcHeap (mkGcHeap false [] [16; 24] [16] NULL NULL NULL 0 0 0)%positive
           dvm0)
    (Some thread0) sim0.

End Demo.

(** More runs on the demo collaborators. *)
Module DemoMore.

Import Demo.

(** A thread that runs at the background priority. *)
Definition s_background : State :=
  start dvm0 (Some thread0) (set_priority 10 sim0).



End DemoMore.

(** * Properties *)

Section Theory.

Context {platform : Platform} {collaborators : Collaborators}.

(** ** The monad *)

Lemma bind_Done_inv {A B} (m : M A) (k : A -> M B) s b s' :
  bind m k s = Done b s' ->
  exists a s1, m s = Done a s1 /\ k a s1 = Done b s'.
Proof.
  unfold bind. destruct (m s) as [a s1 | s1 | s1]; try discriminate.
  intros H. exists a, s1. split; [reflexivity | exact H].
Qed.

Lemma bind_assoc {A B C} (m : M A) (f : A -> M B) (g : B -> M C) s :
  bind (bind m f) g s = bind m (fun x => bind (f x) g) s.
Proof.
  unfold bind. destruct (m s); reflexivity.
Qed.

Lemma prepend_nil s : prepend [] s = s.
Proof. destruct s; reflexivity. Qed.

Lemma prepend_app t t' s : prepend (t ++ t') s = prepend t (prepend t' s).
Proof. unfold prepend; cbn. now rewrite app_assoc. Qed.

Lemma map_outcome_prepend_app {A} t t' (o : Outcome A) :
  map_outcome (prepend (t ++ t')) o
  = map_outcome (prepend t) (map_outcome (prepend t') o).
Proof. destruct o; cbn; now rewrite prepend_app. Qed.

Lemma final_state_map {A} f (o : Outcome A) :
  final_state (map_outcome f o) = f (final_state o).
Proof. now destruct o. Qed.

(** ** What the primitives emit *)

Lemma emits_ret {A} p (a : A) : emits p (ret a).
Proof. intros w t; cbn. unfold prepend; cbn. now rewrite app_nil_r. Qed.

Lemma emits_gets {A} p (f : World -> A) : emits p (gets f).
Proof. intros w t; cbn. unfold prepend; cbn. now rewrite app_nil_r. Qed.

Lemma emits_modify p f : emits p (modify f).
Proof. intros w t; cbn. unfold prepend; cbn. now rewrite app_nil_r. Qed.

Lemma emits_spin {A} p : emits p (fun s => @Spinning _ A s).
Proof. intros w t; cbn. unfold prepend; cbn. now rewrite app_nil_r. Qed.

Lemma emits_crash {A} p : emits p (fun s => @Aborted _ A s).
Proof. intros w t; cbn. unfold prepend; cbn. now rewrite app_nil_r. Qed.

Lemma emits_emit p e : p e = true -> emits p (emit e).
Proof. intros H w t; cbn. now rewrite H. Qed.

Lemma emits_dvmAbort {A} p : p EvAbort = true -> emits p (@dvmAbort _ A).
Proof. intros H w t; cbn. now rewrite H. Qed.

Lemma emits_query {R} p (q : Query R) :
  (forall r, p (EvQuery q r) = true) -> emits p (query q).
Proof. intros H w t; cbn. now rewrite H. Qed.

Lemma emits_call {R} p (c : ExtCall R) :
  (forall r, p (EvCall c r) = true) -> emits p (call c).
Proof.
  intros H w t; unfold call; cbn.
  destruct (on_call c (ext w)) as [r e]; cbn. now rewrite H.
Qed.

Lemma emits_yield {R} p (c : EnvCall R) :
  (forall r, p (EvEnv c r) = true) -> emits p (yield c).
Proof.
  intros H w t; unfold yield; cbn.
  destruct (on_env c w) as [r w']; cbn. now rewrite H.
Qed.

Lemma emits_bind {A B} p (m : M A) (k : A -> M B) :
  emits p m -> (forall a, emits p (k a)) -> emits p (bind m k).
Proof.
  intros Hm Hk w t. destruct (Hm w t) as [E F]. unfold bind at 1 2 3.
  rewrite E. destruct (m (mkState w [])) as [a [w1 t1] | s1 | s1]; cbn in *.
  - destruct (Hk a w1 t1) as [E1 F1]. destruct (Hk a w1 (t ++ t1)) as [E2 _].
    unfold prepend at 1; cbn. rewrite E2, E1. split.
    + apply map_outcome_prepend_app.
    + rewrite final_state_map; cbn. rewrite forallb_app. now rewrite F, F1.
  - now split.
  - now split.
Qed.

Lemma emits_weaken {A} (p q : Event -> bool) (m : M A) :
  (forall e, p e = true -> q e = true) -> emits p m -> emits q m.
Proof.
  intros H Hm w t. destruct (Hm w t) as [E F]. split; [exact E|].
  rewrite forallb_forall in *. auto.
Qed.

Lemma emits_when p c m : emits p m -> emits p (when c m).
Proof. destruct c; cbn; [auto | intros _; apply emits_ret]. Qed.

Lemma emits_assert p c : p EvAbort = true -> emits p (assert c).
Proof.
  intros H. unfold assert. destruct (NDEBUG || c).
  - apply emits_ret.
  - now apply emits_dvmAbort.
Qed.

Lemma emits_must p (c : ExtCall bool) :
  (forall r, p (EvCall c r) = true) -> emits p (must c).
Proof.
  intros H. unfold must. apply emits_bind; [now apply emits_call|].
  intros [|]; [apply emits_ret | apply emits_crash].
Qed.

Lemma emits_waitWhileGcRunning p fuel self :
  (forall t st r, p (EvCall (dvmChangeStatus t st) r) = true) ->
  (forall c m r, p (EvEnv (dvmWaitCond c m) r) = true) ->
  emits p (waitWhileGcRunning fuel self).
Proof.
  intros H1 H2. induction fuel as [|fuel IH]; cbn [waitWhileGcRunning].
  - apply emits_bind; [apply emits_gets|]. intros [|];
      [apply emits_spin | apply emits_ret].
  - apply emits_bind; [apply emits_gets|]. intros [|]; [|apply emits_ret].
    apply emits_bind; [now apply emits_call|]. intros old.
    apply emits_bind; [now apply emits_yield|]. intros _.
    apply emits_bind; [now apply emits_call|]. intros _.
    exact IH.
Qed.

End Theory.

(** Walks a function of [Heap.c] statement by statement and checks every
    event it can emit against the predicate of the goal. *)
Ltac emits_unfold :=
  unfold dvmMalloc, recordAllocation, throwOOME, tryMalloc, collect_soft_refs, gcForMalloc,
    dvmWaitForConcurrentGcToComplete, dvmCollectGarbageInternal, ddmDumps,
    gcReport, restorePriority, elevatePriority, verifyRootsAndHeap,
    dvmGetNextHeapWorkerObject, dvmIsValidObject, dvmObjectSizeInHeap,
    dvmLockHeap, dvmUnlockHeap, dvmHeapAddRefToLargeTable,
    dvmHeapGetNextObjectFromLargeTable, dvmThreadSelf,
    waitRound,
    LOGV_HEAP, LOGD_HEAP, LOGI_HEAP, LOGW_HEAP, LOGE_HEAP, LOGD;
  cbv zeta.

Ltac emits_step :=
  match goal with
  | |- forall _, _ => intro
  | |- emits _ (bind _ _) => apply emits_bind
  | |- emits _ (ret _) => apply emits_ret
  | |- emits _ (gets _) => apply emits_gets
  | |- emits _ (modify _) => apply emits_modify
  | |- emits _ (when _ _) => apply emits_when
  | |- emits _ (emit _) => apply emits_emit; reflexivity
  | |- emits _ (query _) => apply emits_query; intros; reflexivity
  | |- emits _ (call _) => apply emits_call; intros; reflexivity
  | |- emits _ (yield _) => apply emits_yield; intros; reflexivity
  | |- emits _ (must _) => apply emits_must; intros; reflexivity
  | |- emits _ (assert _) => apply emits_assert; reflexivity
  | |- emits _ dvmAbort => apply emits_dvmAbort; reflexivity
  | |- emits _ (waitWhileGcRunning _ _) =>
      apply emits_waitWhileGcRunning; intros; reflexivity
  | |- emits _ (if ?b then _ else _) => destruct b
  | |- emits _ (match ?x with _ => _ end) => destruct x
  | |- emits _ (let (_, _) := ?x in _) => destruct x
  end.

Ltac emits_auto := emits_unfold; repeat emits_step.

Section Walks.

Context {platform : Platform} {collaborators : Collaborators}.

Lemma uniform_dvmCollectGarbageInternal c reason :
  emits any_event (dvmCollectGarbageInternal c reason).
Proof. emits_auto. Qed.

Lemma uniform_tryMalloc fuel size : emits any_event (tryMalloc fuel size).
Proof. emits_auto. Qed.

Lemma uniform_dvmMalloc fuel size flags :
  emits any_event (dvmMalloc fuel size flags).
Proof. emits_auto. Qed.

End Walks.

Section Claims.

Context {platform : Platform} {collaborators : Collaborators}.

(** ** Calls always come back *)

Lemma call_Done {R} (c : ExtCall R) s :
  call c s
  = Done (fst (on_call c (ext (world s))))
      (mkState
         (mkWorld (gDvm (world s)) (curThread (world s))
            (snd (on_call c (ext (world s)))))
         (trace s ++ [EvCall c (fst (on_call c (ext (world s))))])).
Proof. unfold call. now destruct (on_call c (ext (world s))). Qed.

Lemma yield_Done {R} (c : EnvCall R) s :
  yield c s
  = Done (fst (on_env c (world s)))
      (mkState (snd (on_env c (world s)))
         (trace s ++ [EvEnv c (fst (on_env c (world s)))])).
Proof. unfold yield. now destruct (on_env c (world s)). Qed.

Lemma new_events_app {A} s (o : Outcome A) evs :
  trace (final_state o) = trace s ++ evs -> new_events s o = evs.
Proof.
  unfold new_events. intros ->.
  rewrite skipn_app, skipn_all, Nat.sub_diag. reflexivity.
Qed.

Lemma unit_eta (u : unit) : u = tt.
Proof. now destruct u. Qed.

(** ** The recursive-entry guard of the driver *)

(** C3.  Entered while [gcRunning] is set, [dvmCollectGarbageInternal]
    returns at once: it logs the warning and nothing else happens.  The
    world it leaves is the one it found, with [gcRunning] still set, and the
    only event added to the trace is the warning, so that no thread was
    suspended and no marking, reference processing, sweep, bitmap swap or
    resize took place. *)
Theorem recursive_gc_returns_at_once clearSoftRefs reason s :
  running_in s = true ->
  exists s',
    dvmCollectGarbageInternal clearSoftRefs reason s = Done tt s'
    /\ world s' = world s
    /\ running_in s' = true
    /\ new_events s (Done tt s')
       = [EvLog LOG_WARN true "Attempted recursive GC\n" []].
Proof.
  intros Hrun. unfold running_in in Hrun.
  exists (record (EvLog LOG_WARN true "Attempted recursive GC\n" []) s).
  unfold dvmCollectGarbageInternal, bind, gets. rewrite Hrun.
  repeat split.
  - exact Hrun.
  - now apply new_events_app.
Qed.

(** ** The validity test *)

Lemma aligned8 (z : Z) : (Z.land z (8 - 1) =? 0)%Z = true <-> (8 | z)%Z.
Proof.
  change (8 - 1)%Z with (Z.ones 3). rewrite Z.land_ones by lia.
  rewrite Z.eqb_eq. change (2 ^ 3)%Z with 8%Z.
  split.
  - intros H. apply Z.mod_divide; [lia | exact H].
  - intros H. apply Z.mod_divide in H; [exact H | lia].
Qed.

(** C9.  [dvmIsValidObject] answers [false] for [NULL] and for a pointer
    that is not 8-byte aligned, in both cases without a query to the heap
    source (the state and the trace are left as they were); it always
    returns, and what it returns is [true] exactly when the pointer is
    non-null, 8-byte aligned and contained in the heap source. *)
Theorem dvmIsValidObject_spec obj s :
  (obj = NULL \/ ~ (8 | uintptr obj)%Z -> dvmIsValidObject obj s = Done false s)
  /\ exists b s',
       dvmIsValidObject obj s = Done b s'
       /\ world s' = world s
       /\ (b = true <->
           obj <> NULL /\ (8 | uintptr obj)%Z
           /\ on_query (dvmHeapSourceContains obj) (ext (world s)) = true).
Proof.
  unfold dvmIsValidObject.
  destruct (Z.land (uintptr obj) (8 - 1) =? 0)%Z eqn:Ha.
  - apply aligned8 in Ha. destruct obj as [a|]; cbn [is_null negb andb].
    + split.
      * intros [H | H]; [discriminate | contradiction].
      * eexists _, _. split; [reflexivity|]. split; [reflexivity|].
        split; [intros H; repeat split; [discriminate | assumption | exact H]
               | intros (_ & _ & H); exact H].
    + split; [reflexivity|].
      exists false, s. repeat split; try discriminate.
      intros (H & _); now contradiction H.
  - rewrite andb_false_r. split; [reflexivity|].
    exists false, s. repeat split; try discriminate.
    intros (_ & H & _). apply aligned8 in H. congruence.
Qed.

(** ** The heap-worker hand-off *)

Lemma next_worker_enqueue op s o rest :
  referenceOperations (the_gcHeap (world s)) = o :: rest ->
  exists s',
    dvmGetNextHeapWorkerObject op s = Done (Some o, WORKER_ENQUEUE) s'
    /\ referenceOperations (the_gcHeap (world s')) = rest
    /\ pendingFinalizationRefs (the_gcHeap (world s'))
       = pendingFinalizationRefs (the_gcHeap (world s))
    /\ new_events s (Done (Some o, WORKER_ENQUEUE) s')
       = [lock_event; tracked_event o; unlock_event].
Proof.
  intros H. unfold dvmGetNextHeapWorkerObject.
  unfold bind at 1. rewrite call_Done.
  unfold dvmHeapGetNextObjectFromLargeTable, bind, gets, modify, ret, when.
  unfold the_gcHeap in *. cbn. rewrite H. cbn.
  rewrite !call_Done. cbn.
  eexists. split; [reflexivity|]. cbn. repeat split.
  apply new_events_app. cbn. rewrite <- !app_assoc. cbn.
  unfold lock_event, unlock_event, tracked_event.
  repeat match goal with |- context [fst ?x] =>
    rewrite (unit_eta (fst x)) end.
  reflexivity.
Qed.

Lemma next_worker_finalize op s o rest :
  referenceOperations (the_gcHeap (world s)) = [] ->
  pendingFinalizationRefs (the_gcHeap (world s)) = o :: rest ->
  exists s',
    dvmGetNextHeapWorkerObject op s = Done (Some o, WORKER_FINALIZE) s'
    /\ referenceOperations (the_gcHeap (world s')) = []
    /\ pendingFinalizationRefs (the_gcHeap (world s')) = rest
    /\ new_events s (Done (Some o, WORKER_FINALIZE) s')
       = [lock_event; tracked_event o; unlock_event].
Proof.
  intros H H'. unfold dvmGetNextHeapWorkerObject.
  unfold bind at 1. rewrite call_Done.
  unfold dvmHeapGetNextObjectFromLargeTable, bind, gets, modify, ret, when.
  unfold the_gcHeap in *. cbn. rewrite H. cbn. rewrite H'. cbn.
  rewrite !call_Done. cbn.
  eexists. split; [reflexivity|]. cbn. repeat split; [assumption|].
  apply new_events_app. cbn. rewrite <- !app_assoc. cbn.
  unfold lock_event, unlock_event, tracked_event.
  repeat match goal with |- context [fst ?x] =>
    rewrite (unit_eta (fst x)) end.
  reflexivity.
Qed.

Lemma next_worker_idle op s :
  referenceOperations (the_gcHeap (world s)) = [] ->
  pendingFinalizationRefs (the_gcHeap (world s)) = [] ->
  exists s',
    dvmGetNextHeapWorkerObject op s = Done (NULL, op) s'
    /\ gDvm (world s') = gDvm (world s)
    /\ curThread (world s') = curThread (world s)
    /\ new_events s (Done (NULL, op) s') = [lock_event; unlock_event].
Proof.
  intros H H'. unfold dvmGetNextHeapWorkerObject.
  unfold bind at 1. rewrite call_Done.
  unfold dvmHeapGetNextObjectFromLargeTable, bind, gets, modify, ret, when.
  unfold the_gcHeap in *. cbn. rewrite H. cbn. rewrite H'. cbn.
  rewrite !call_Done. cbn.
  eexists. split; [reflexivity|]. cbn. repeat split.
  apply new_events_app. cbn. rewrite <- !app_assoc. cbn.
  unfold lock_event, unlock_event.
  repeat match goal with |- context [fst ?x] =>
    rewrite (unit_eta (fst x)) end.
  reflexivity.
Qed.

Lemma next_worker_returns op s :
  exists r s', dvmGetNextHeapWorkerObject op s = Done r s'.
Proof.
  destruct (referenceOperations (the_gcHeap (world s))) as [|o rest] eqn:E.
  - destruct (pendingFinalizationRefs (the_gcHeap (world s)))
      as [|o rest] eqn:E'.
    + destruct (next_worker_idle op s E E') as (s' & H & _). eauto.
    + destruct (next_worker_finalize op s E E') as (s' & H & _). eauto.
  - destruct (next_worker_enqueue op s E) as (s' & H & _). eauto.
Qed.

Lemma poll_returns n : forall op s,
  exists rs s', poll n op s = Done rs s' /\ List.length rs = n.
Proof.
  induction n as [|n IH]; intros op s; cbn [poll].
  - exists [], s. now split.
  - destruct (next_worker_returns op s) as (r & s1 & H1).
    destruct (IH (snd r) s1) as (rs & s' & H2 & L).
    exists (r :: rs), s'. unfold bind, ret. rewrite H1, H2. cbn. now rewrite L.
Qed.

Lemma poll_enqueue_first n : forall op s rs s' o,
  In o (referenceOperations (the_gcHeap (world s))) ->
  poll n op s = Done rs s' ->
  forall j, nth_error rs j = Some (Some o, WORKER_FINALIZE) ->
  exists i, i < j /\ nth_error rs i = Some (Some o, WORKER_ENQUEUE).
Proof.
  induction n as [|n IH]; intros op s rs s' o Hin Hp j Hj; cbn [poll] in Hp.
  - injection Hp as <- _. destruct j; discriminate.
  - destruct (referenceOperations (the_gcHeap (world s)))
      as [|o' rest] eqn:E; [contradiction|].
    destruct (next_worker_enqueue op s E) as (s1 & H1 & Hrest & _).
    unfold bind at 1 in Hp. rewrite H1 in Hp. cbn [snd] in Hp.
    apply bind_Done_inv in Hp. destruct Hp as (rs' & s2 & Hp & Hr).
    injection Hr as <- <-.
    destruct j as [|j]; [discriminate|]. cbn in Hj.
    destruct (Pos.eq_dec o' o) as [->|Hne].
    + exists 0. split; [lia | reflexivity].
    + destruct Hin as [Hin|Hin]; [contradiction|].
      rewrite <- Hrest in Hin.
      destruct (IH _ _ _ _ _ Hin Hp j Hj) as (i & Hi & Hi').
      exists (S i). split; [lia | exact Hi'].
Qed.

(** C4.  [dvmGetNextHeapWorkerObject] takes the next object of
    [referenceOperations], with [WORKER_ENQUEUE], whenever that table is
    not empty, and leaves [pendingFinalizationRefs] alone; it takes the
    next object of [pendingFinalizationRefs], with [WORKER_FINALIZE], only
    when [referenceOperations] is empty.  In both cases the object is
    handed to [dvmAddTrackedAlloc] after the dequeue and before the lock is
    released and the function returns.  Hence, over any number of polls, an
    object waiting in [referenceOperations] that comes back for
    finalization has come back for enqueueing in a strictly earlier
    poll. *)
Theorem enqueue_precedes_finalize op s :
  (forall o rest,
     referenceOperations (the_gcHeap (world s)) = o :: rest ->
     exists s',
       dvmGetNextHeapWorkerObject op s = Done (Some o, WORKER_ENQUEUE) s'
       /\ referenceOperations (the_gcHeap (world s')) = rest
       /\ pendingFinalizationRefs (the_gcHeap (world s'))
          = pendingFinalizationRefs (the_gcHeap (world s))
       /\ new_events s (Done (Some o, WORKER_ENQUEUE) s')
          = [lock_event; tracked_event o; unlock_event])
  /\ (forall o rest,
        referenceOperations (the_gcHeap (world s)) = [] ->
        pendingFinalizationRefs (the_gcHeap (world s)) = o :: rest ->
        exists s',
          dvmGetNextHeapWorkerObject op s = Done (Some o, WORKER_FINALIZE) s'
          /\ referenceOperations (the_gcHeap (world s')) = []
          /\ pendingFinalizationRefs (the_gcHeap (world s')) = rest
          /\ new_events s (Done (Some o, WORKER_FINALIZE) s')
             = [lock_event; tracked_event o; unlock_event])
  /\ (forall r s',
        dvmGetNextHeapWorkerObject op s = Done r s' ->
        snd r = WORKER_FINALIZE -> fst r <> NULL ->
        referenceOperations (the_gcHeap (world s)) = [])
  /\ (forall n,
        exists rs s',
          poll n op s = Done rs s' /\ List.length rs = n
          /\ forall o j,
               In o (referenceOperations (the_gcHeap (world s))) ->
               nth_error rs j = Some (Some o, WORKER_FINALIZE) ->
               exists i,
                 i < j /\ nth_error rs i = Some (Some o, WORKER_ENQUEUE)).
Proof.
  split; [|split; [|split]].
  - intros o rest H. exact (next_worker_enqueue op s H).
  - intros o rest H H'. exact (next_worker_finalize op s H H').
  - intros r s' H Hop Hobj.
    destruct (referenceOperations (the_gcHeap (world s)))
      as [|o rest] eqn:E; [reflexivity|].
    destruct (next_worker_enqueue op s E) as (s1 & H1 & _).
    rewrite H1 in H. injection H as <- _. discriminate.
  - intros n. destruct (poll_returns n op s) as (rs & s' & H & L).
    exists rs, s'. split; [exact H|]. split; [exact L|].
    intros o j Hin Hj. eapply poll_enqueue_first; eassumption.
Qed.

(** C10.  With [referenceOperations] and [pendingFinalizationRefs] both
    empty, [dvmGetNextHeapWorkerObject] returns [NULL], hands [op] back as
    it received it, and calls nothing but the lock and the unlock of the
    worker-list mutex: no object goes to [dvmAddTrackedAlloc], and the
    fields of [gDvm] and of the thread are as before. *)
Theorem idle_poll_returns_null op s :
  referenceOperations (the_gcHeap (world s)) = [] ->
  pendingFinalizationRefs (the_gcHeap (world s)) = [] ->
  exists s',
    dvmGetNextHeapWorkerObject op s = Done (NULL, op) s'
    /\ gDvm (world s') = gDvm (world s)
    /\ curThread (world s') = curThread (world s)
    /\ new_events s (Done (NULL, op) s') = [lock_event; unlock_event]
    /\ existsb is_tracked_alloc (new_events s (Done (NULL, op) s')) = false.
Proof.
  intros H H'.
  destruct (next_worker_idle op s H H') as (s' & E & Hg & Ht & Hev).
  exists s'. repeat split; try assumption.
  rewrite Hev. reflexivity.
Qed.

(** ** Waiting for the concurrent collection *)

Lemma waitRound_Done self s :
  waitRound self s = Done tt (final_state (waitRound self s)).
Proof.
  unfold waitRound, bind, ret. rewrite call_Done, yield_Done, call_Done.
  reflexivity.
Qed.

Lemma wait_idle fuel self s :
  running_in s = false -> waitWhileGcRunning fuel self s = Done tt s.
Proof.
  unfold running_in. intros H.
  destruct fuel; cbn [waitWhileGcRunning]; unfold bind, gets, ret;
    now rewrite H.
Qed.

Lemma wait_round fuel self s :
  running_in s = true ->
  waitWhileGcRunning (S fuel) self s
  = waitWhileGcRunning fuel self (final_state (waitRound self s)).
Proof.
  unfold running_in. intros H. cbn [waitWhileGcRunning].
  unfold bind at 1. unfold gets at 1. rewrite H.
  unfold waitRound, bind, ret. rewrite call_Done, yield_Done, call_Done.
  reflexivity.
Qed.

Lemma wait_spins self s :
  running_in s = true -> waitWhileGcRunning 0 self s = Spinning s.
Proof.
  unfold running_in. intros H. cbn. unfold bind, gets. now rewrite H.
Qed.

Lemma wait_Done_inv fuel self : forall s u s',
  waitWhileGcRunning fuel self s = Done u s' ->
  exists n,
    n <= fuel /\ s' = after_rounds n self s /\ running_in s' = false
    /\ forall k, k < n -> running_in (after_rounds k self s) = true.
Proof.
  induction fuel as [|fuel IH]; intros s u s' H;
    destruct (running_in s) eqn:R.
  - rewrite wait_spins in H by exact R. discriminate.
  - rewrite wait_idle in H by exact R. injection H as _ <-.
    exists 0. split; [lia|]. split; [reflexivity|]. split; [exact R|].
    intros k Hk; lia.
  - rewrite wait_round in H by exact R.
    destruct (IH _ _ _ H) as (n & Hn & -> & Hf & Hk).
    exists (S n). split; [lia|]. split; [reflexivity|]. split; [exact Hf|].
    intros [|k] Hlt; [exact R | apply Hk; lia].
  - rewrite wait_idle in H by exact R. injection H as _ <-.
    exists 0. split; [lia|]. split; [reflexivity|]. split; [exact R|].
    intros k Hk; lia.
Qed.

Lemma wait_Done_intro n self : forall fuel s,
  n <= fuel ->
  running_in (after_rounds n self s) = false ->
  (forall k, k < n -> running_in (after_rounds k self s) = true) ->
  waitWhileGcRunning fuel self s = Done tt (after_rounds n self s).
Proof.
  induction n as [|n IH]; intros fuel s Hle Hf Hk.
  - now apply wait_idle.
  - destruct fuel as [|fuel]; [lia|].
    rewrite wait_round by (apply (Hk 0); lia).
    apply IH; [lia | exact Hf |].
    intros k Hlt. apply (Hk (S k)). lia.
Qed.

(** C7.  A call of [dvmWaitForConcurrentGcToComplete] that returns, returns
    in a state where [gcRunning] is false, and that state is the one
    reached after some number [n] of rounds (status change, wait on the
    condition variable, status restored) such that [gcRunning] was still
    true after each of the rounds before: a wakeup that finds the flag set
    is followed by another wait, never by a return.  Conversely the call
    does return, after exactly [n] rounds, as soon as the flag is found
    cleared (given fuel for [n] rounds, and a [Thread] structure when
    assertions are compiled in). *)
Theorem wait_returns_when_gc_done fuel s :
  (forall u s',
     dvmWaitForConcurrentGcToComplete fuel s = Done u s' ->
     running_in s' = false
     /\ exists n,
          n <= fuel /\ s' = after_rounds n (self_of s) s
          /\ forall k, k < n ->
               running_in (after_rounds k (self_of s) s) = true)
  /\ (forall n,
        NDEBUG = true \/ self_of s = ThreadSelf ->
        n <= fuel ->
        running_in (after_rounds n (self_of s) s) = false ->
        (forall k, k < n ->
           running_in (after_rounds k (self_of s) s) = true) ->
        dvmWaitForConcurrentGcToComplete fuel s
        = Done tt (after_rounds n (self_of s) s)).
Proof.
  unfold dvmWaitForConcurrentGcToComplete, dvmThreadSelf.
  unfold bind at 1 3. unfold gets. fold (self_of s). split.
  - intros u s' H. apply bind_Done_inv in H.
    destruct H as (v & s1 & Ha & H).
    assert (s1 = s) as ->.
    { unfold assert in Ha. destruct (NDEBUG || _); [|discriminate].
      now injection Ha. }
    destruct (wait_Done_inv _ _ _ H) as (n & Hn & -> & Hf & Hk).
    split; [exact Hf|]. exists n. split; [exact Hn|]. split; [reflexivity|].
    exact Hk.
  - intros n Hth Hle Hf Hk. unfold bind, assert.
    replace (NDEBUG || negb (thread_is_null (self_of s))) with true.
    + cbn. now apply wait_Done_intro.
    + destruct Hth as [-> | ->]; [reflexivity | now rewrite orb_true_r].
Qed.

(** ** Runs and their traces *)

Lemma emits_run {A} p (m : M A) s :
  emits p m ->
  m s = map_outcome (prepend (trace s)) (m (mkState (world s) [])).
Proof. intros H. destruct s as [w t]. apply H. Qed.

Lemma emits_new_events {A} p (m : M A) s :
  emits p m -> forallb p (new_events s (m s)) = true.
Proof.
  intros H. destruct s as [w t]. destruct (H w t) as [E F].
  erewrite new_events_app; [exact F|].
  rewrite E, final_state_map. reflexivity.
Qed.

Lemma emits_trace {A} p (m : M A) s :
  emits p m ->
  exists evs,
    trace (final_state (m s)) = trace s ++ evs /\ forallb p evs = true.
Proof.
  intros H. destruct s as [w t]. destruct (H w t) as [E F].
  exists (trace (final_state (m (mkState w [])))). split; [|exact F].
  rewrite E, final_state_map. reflexivity.
Qed.

(** ** [dvmMalloc] *)

Lemma bind_ext {A B} (m : M A) (k k' : A -> M B) s :
  (forall a s1, k a s1 = k' a s1) -> bind m k s = bind m k' s.
Proof. intros H. unfold bind. destruct (m s); auto. Qed.

Lemma dvmMalloc_split fuel size flags s :
  dvmMalloc fuel size flags s
  = bind (dvmMalloc_locked fuel size flags) (dvmMalloc_unlocked flags) s.
Proof.
  unfold dvmMalloc, dvmMalloc_locked.
  rewrite bind_assoc. apply bind_ext. intros _ s1.
  rewrite bind_assoc. apply bind_ext. intros p s2.
  rewrite bind_assoc. apply bind_ext. intros _ s3.
  rewrite bind_assoc. apply bind_ext. intros _ s4.
  reflexivity.
Qed.

Lemma forallb_negb_existsb {A} (f : A -> bool) l :
  forallb (fun x => negb (f x)) l = true -> existsb f l = false.
Proof.
  induction l as [|x l IH]; cbn; [reflexivity|].
  rewrite andb_true_iff. intros [Hx Hl].
  apply negb_true_iff in Hx. now rewrite Hx, IH.
Qed.

Lemma dvmMalloc_locked_sets_no_exception fuel size flags :
  emits (fun e => negb (sets_exception e)) (dvmMalloc_locked fuel size flags).
Proof. unfold dvmMalloc_locked. emits_auto. Qed.

Lemma dvmMalloc_unlocked_NULL flags p s s' :
  dvmMalloc_unlocked flags p s = Done NULL s' ->
  p = NULL /\ throwOOME s = Done tt s'.
Proof.
  unfold dvmMalloc_unlocked. intros H. apply bind_Done_inv in H.
  destruct H as (u & s1 & H & Hr). injection Hr as -> ->.
  split; [reflexivity|]. cbn in H. now destruct u.
Qed.

Lemma throwOOME_no_thread s :
  curThread (world s) = None -> throwOOME s = Done tt s.
Proof.
  intros H. unfold throwOOME, dvmThreadSelf, bind, gets. now rewrite H.
Qed.

Lemma throwOOME_thread s t :
  curThread (world s) = Some t ->
  exists s',
    throwOOME s = Done tt s'
    /\ new_events s (Done tt s')
       = [EvQuery (dvmIsOnThreadList ThreadSelf)
            (on_query (dvmIsOnThreadList ThreadSelf) (ext (world s)));
          if on_query (dvmIsOnThreadList ThreadSelf) (ext (world s))
             && negb (throwingOOME t)
          then throw_fresh_OOME
          else set_prebuilt_OOME (outOfMemoryObj (gDvm (world s)))].
Proof.
  intros H. unfold throwOOME, dvmThreadSelf.
  unfold bind at 1. unfold gets at 1. rewrite H. cbn [thread_is_null negb when].
  unfold bind at 1. unfold query at 1.
  unfold bind at 1. unfold gets at 1. cbn [world record]. rewrite H.
  destruct (on_query (dvmIsOnThreadList ThreadSelf) (ext (world s))
            && negb (throwingOOME t)).
  - unfold bind, modify. rewrite yield_Done. cbn.
    eexists. split; [reflexivity|]. apply new_events_app. cbn.
    rewrite <- !app_assoc. cbn. unfold throw_fresh_OOME.
    match goal with |- context [fst ?x] => rewrite (unit_eta (fst x)) end.
    reflexivity.
  - unfold bind, modify, gets. rewrite call_Done. cbn.
    eexists. split; [reflexivity|]. apply new_events_app. cbn.
    rewrite <- !app_assoc. cbn. unfold set_prebuilt_OOME.
    match goal with |- context [fst ?x] => rewrite (unit_eta (fst x)) end.
    reflexivity.
Qed.

(** C5, as the code has it.  When [dvmMalloc] returns [NULL] it has called
    [throwOOME], after releasing the heap lock and without any exception
    set before.  If the calling thread has a [Thread] structure, exactly
    one call then sets its exception: [dvmThrowException] with
    [OutOfMemoryError] and no message when the thread is on the thread
    list and is not already throwing one, [dvmSetException] with the
    pre-built [gDvm.outOfMemoryObj] otherwise (so for a thread that is not
    yet on the thread list).  If the calling thread has no [Thread]
    structure, [throwOOME] does nothing, and no exception is set. *)
Theorem dvmMalloc_null_throws_if_thread fuel size flags s s' :
  dvmMalloc fuel size flags s = Done NULL s' ->
  exists s1,
    dvmMalloc_locked fuel size flags s = Done NULL s1
    /\ existsb sets_exception (new_events s (Done NULL s1)) = false
    /\ throwOOME s1 = Done tt s'
    /\ match curThread (world s1) with
       | None => s' = s1
       | Some t =>
           new_events s1 (Done tt s')
           = [EvQuery (dvmIsOnThreadList ThreadSelf)
                (on_query (dvmIsOnThreadList ThreadSelf) (ext (world s1)));
              if on_query (dvmIsOnThreadList ThreadSelf) (ext (world s1))
                 && negb (throwingOOME t)
              then throw_fresh_OOME
              else set_prebuilt_OOME (outOfMemoryObj (gDvm (world s1)))]
       end.
Proof.
  intros H. rewrite dvmMalloc_split in H. apply bind_Done_inv in H.
  destruct H as (p & s1 & Hl & Hu).
  apply dvmMalloc_unlocked_NULL in Hu. destruct Hu as [-> Ht].
  exists s1. split; [exact Hl|]. split; [|split; [exact Ht|]].
  - rewrite <- Hl. apply forallb_negb_existsb.
    apply emits_new_events, dvmMalloc_locked_sets_no_exception.
  - destruct (curThread (world s1)) as [t|] eqn:C.
    + destruct (throwOOME_thread s1 C) as (s2 & E & Hev).
      rewrite E in Ht. injection Ht as <-. exact Hev.
    + rewrite throwOOME_no_thread in Ht by exact C. now injection Ht.
Qed.

(** The profiling counters touch neither the trace, nor the tables, nor
    the collaborators. *)
Lemma profiling_Done (bump : size_t -> AllocProfState -> AllocProfState)
    size s :
  exists s',
    (profiling <- gets (fun w => enabled (allocProf (gDvm w))) ;;
     when profiling
       (self <- dvmThreadSelf ;;
        modify (with_allocProf (bump size));;
        when (negb (thread_is_null self))
          (modify (with_self
             (fun t =>
                set_thread_allocProf (bump size (thread_allocProf t)) t)))))
      s = Done tt s'
    /\ trace s' = trace s
    /\ finalizableRefs (the_gcHeap (world s'))
       = finalizableRefs (the_gcHeap (world s))
    /\ ext (world s') = ext (world s).
Proof.
  unfold bind at 1. unfold gets at 1.
  destruct (enabled (allocProf (gDvm (world s)))); cbn [when].
  - unfold dvmThreadSelf, bind, gets, modify.
    destruct (curThread (world s)) eqn:C; cbn; rewrite ?C; cbn;
      eexists; (split; [reflexivity|]); now repeat split.
  - exists s. now repeat split.
Qed.

Lemma recordAllocation_finalizable size flags a s0 :
  Z.land flags ALLOC_FINALIZABLE <> 0%Z ->
  if fst (on_call (largeTableRoom FinalizableRefs) (ext (world s0))) then
    exists s1,
      recordAllocation size flags (Some a) s0 = Done tt s1
      /\ finalizableRefs (the_gcHeap (world s1))
         = finalizableRefs (the_gcHeap (world s0)) ++ [a]
      /\ new_events s0 (Done tt s1)
         = [EvCall (largeTableRoom FinalizableRefs) true]
  else
    exists s1,
      recordAllocation size flags (Some a) s0 = Aborted s1
      /\ finalizableRefs (the_gcHeap (world s1))
         = finalizableRefs (the_gcHeap (world s0))
      /\ new_events s0 (Aborted (A := unit) s1)
         = [EvCall (largeTableRoom FinalizableRefs) false;
            EvLog LOG_ERROR true
              "dvmMalloc(): no room for any more finalizable objects\n" [];
            EvAbort].
Proof.
  intros Hf. apply Z.eqb_neq in Hf. unfold recordAllocation.
  rewrite Hf. cbn [negb when]. unfold dvmHeapAddRefToLargeTable.
  destruct (fst (on_call (largeTableRoom FinalizableRefs) (ext (world s0))))
    eqn:R.
  - unfold bind at 1. unfold bind at 1. unfold bind at 1.
    rewrite call_Done, R.
    unfold bind at 1. unfold modify at 1. unfold ret at 1.
    cbn [negb when]. unfold ret at 1.
    match goal with
    | |- exists s1, ?m ?s2 = _ /\ _ =>
        destruct (profiling_Done bump_alloc size s2) as (s3 & E & T & F & X)
    end.
    exists s3. split; [exact E|]. split.
    + rewrite F. unfold the_gcHeap. cbn.
      destruct (world s0) as [g t e]. cbn. now destruct g.
    + apply new_events_app. cbn [final_state]. rewrite T. reflexivity.
  - unfold bind at 1. unfold bind at 1. unfold bind at 1.
    rewrite call_Done, R.
    unfold ret at 1. cbn [negb when]. unfold LOGE_HEAP.
    unfold bind, emit, dvmAbort. eexists. split; [reflexivity|]. split.
    + reflexivity.
    + apply new_events_app. cbn. rewrite <- !app_assoc. reflexivity.
Qed.

Lemma dvmUnlockHeap_Done s :
  exists s',
    dvmUnlockHeap s = Done tt s'
    /\ gDvm (world s') = gDvm (world s)
    /\ trace s' = trace s ++ [EvCall (dvmUnlockMutex gcHeapLock) tt].
Proof.
  unfold dvmUnlockHeap. rewrite call_Done.
  rewrite (unit_eta (fst _)). eexists. split; [reflexivity|]. now split.
Qed.

Lemma track_Done flags a s :
  exists s',
    (if negb (is_null (Some a)) then
       when (Z.land flags ALLOC_DONT_TRACK =? 0)%Z
         (call (dvmAddTrackedAlloc (Some a) ThreadNULL))
     else throwOOME) s = Done tt s'
    /\ gDvm (world s') = gDvm (world s).
Proof.
  cbn [is_null negb]. destruct (Z.land flags ALLOC_DONT_TRACK =? 0)%Z;
    cbn [when].
  - rewrite call_Done. rewrite (unit_eta (fst _)).
    eexists. split; [reflexivity|]. reflexivity.
  - exists s. now split.
Qed.

(** C6.  For a request with [ALLOC_FINALIZABLE] set: when [dvmMalloc]
    returns an object, that object was appended to [finalizableRefs] right
    after [tryMalloc] returned it and before the heap lock was released,
    and it is the last entry of [finalizableRefs] when [dvmMalloc]
    returns; when the append finds no room, [dvmMalloc] logs the error and
    aborts, and does not return; when it finds room, [dvmMalloc] does
    return the object. *)
Theorem finalizable_recorded_under_lock fuel size flags s :
  Z.land flags ALLOC_FINALIZABLE <> 0%Z ->
  (forall a s',
     dvmMalloc fuel size flags s = Done (Some a) s' ->
     exists s0 s1 s2,
       (dvmLockHeap;; tryMalloc fuel size) s = Done (Some a) s0
       /\ recordAllocation size flags (Some a) s0 = Done tt s1
       /\ finalizableRefs (the_gcHeap (world s1))
          = finalizableRefs (the_gcHeap (world s0)) ++ [a]
       /\ dvmUnlockHeap s1 = Done tt s2
       /\ new_events s0 (Done tt s2)
          = [EvCall (largeTableRoom FinalizableRefs) true;
             EvCall (dvmUnlockMutex gcHeapLock) tt]
       /\ finalizableRefs (the_gcHeap (world s'))
          = finalizableRefs (the_gcHeap (world s0)) ++ [a])
  /\ (forall a s0,
        (dvmLockHeap;; tryMalloc fuel size) s = Done (Some a) s0 ->
        if fst (on_call (largeTableRoom FinalizableRefs) (ext (world s0)))
        then exists s', dvmMalloc fuel size flags s = Done (Some a) s'
        else
          exists s1,
            dvmMalloc fuel size flags s = Aborted s1
            /\ new_events s0 (Aborted (A := ptr) s1)
               = [EvCall (largeTableRoom FinalizableRefs) false;
                  EvLog LOG_ERROR true
                    "dvmMalloc(): no room for any more finalizable objects\n"
                    [];
                  EvAbort]).
Proof.
  intros Hf. split.
  - intros a s' H. unfold dvmMalloc in H.
    apply bind_Done_inv in H. destruct H as (b & sa & Hlock & H).
    apply bind_Done_inv in H. destruct H as (p & s0 & Htry & H).
    apply bind_Done_inv in H. destruct H as (u1 & s1 & Hrec & H).
    apply bind_Done_inv in H. destruct H as (u2 & s2 & Hunl & H).
    apply bind_Done_inv in H. destruct H as (u3 & s3 & Hpost & H).
    injection H as -> ->. destruct u1, u2, u3.
    pose proof (@recordAllocation_finalizable size flags a s0 Hf) as R.
    destruct (fst (on_call (largeTableRoom FinalizableRefs) (ext (world s0)))).
    + destruct R as (s1' & E & F & Ev). rewrite E in Hrec.
      injection Hrec as ->.
      destruct (dvmUnlockHeap_Done s1) as (s2' & E2 & G2 & T2).
      rewrite E2 in Hunl. injection Hunl as ->.
      destruct (track_Done flags a s2) as (s3' & E3 & G3).
      rewrite E3 in Hpost. injection Hpost as ->.
      exists s0, s1, s2. split.
      { unfold bind. now rewrite Hlock. }
      split; [exact E|]. split; [exact F|]. split; [exact E2|]. split.
      * apply new_events_app. cbn [final_state]. rewrite T2.
        assert (trace s1 = trace s0 ++ [EvCall (largeTableRoom FinalizableRefs) true])
          as ->.
        { unfold new_events in Ev. cbn [final_state] in Ev.
          destruct (emits_trace s0
                      (p := any_event)
                      (m := recordAllocation size flags (Some a)))
            as (evs & Ht & _); [emits_auto|].
          rewrite E in Ht. cbn [final_state] in Ht. rewrite Ht in Ev |- *.
          rewrite skipn_app, skipn_all, Nat.sub_diag in Ev. cbn in Ev.
          now rewrite Ev. }
        now rewrite <- app_assoc.
      * unfold the_gcHeap in *. now rewrite G3, G2.
    + destruct R as (s1' & E & _). rewrite E in Hrec. discriminate.
  - intros a s0 H. apply bind_Done_inv in H.
    destruct H as (b & sa & Hlock & Htry).
    pose proof (@recordAllocation_finalizable size flags a s0 Hf) as R.
    destruct (fst (on_call (largeTableRoom FinalizableRefs) (ext (world s0)))).
    + destruct R as (s1 & E & _).
      destruct (dvmUnlockHeap_Done s1) as (s2 & E2 & _).
      destruct (track_Done flags a s2) as (s3 & E3 & _).
      exists s3. unfold dvmMalloc. unfold bind at 1. rewrite Hlock.
      unfold bind at 1. rewrite Htry. unfold bind at 1. rewrite E.
      unfold bind at 1. rewrite E2. unfold bind at 1. rewrite E3.
      reflexivity.
    + destruct R as (s1 & E & _ & Ev). exists s1. split; [|exact Ev].
      unfold dvmMalloc. unfold bind at 1. rewrite Hlock.
      unfold bind at 1. rewrite Htry. unfold bind at 1. now rewrite E.
Qed.

(** ** The report of a collection *)

Lemma tracks_refl s : tracks s s [] [].
Proof. exists []. now rewrite app_nil_r. Qed.

Lemma filter_quiet f evs :
  (forall e, quiet e = true -> f e = false) ->
  forallb quiet evs = true -> filter f evs = [].
Proof.
  intros Hq. induction evs as [|e evs IH]; cbn; [reflexivity|].
  rewrite andb_true_iff. intros [He Hevs].
  now rewrite (Hq e He), IH.
Qed.

Lemma quiet_not_sweep e : quiet e = true -> is_sweep e = false.
Proof.
  unfold quiet. rewrite andb_true_iff, !negb_true_iff. tauto.
Qed.

Lemma quiet_not_report e : quiet e = true -> is_gc_report e = false.
Proof.
  unfold quiet. rewrite andb_true_iff, !negb_true_iff. tauto.
Qed.

Lemma tracks_quiet {A} (m : M A) s0 s x s1 S R :
  emits quiet m -> m s = Done x s1 ->
  tracks s0 s S R -> tracks s0 s1 S R.
Proof.
  intros Hm E (evs & Ht & HS & HR).
  destruct (emits_trace s Hm) as (evs' & Ht' & Hq).
  rewrite E in Ht'. cbn in Ht'.
  exists (evs ++ evs'). rewrite Ht', Ht, app_assoc. split; [reflexivity|].
  rewrite !filter_app, HS, HR.
  rewrite (filter_quiet is_sweep evs' quiet_not_sweep Hq).
  rewrite (filter_quiet is_gc_report evs' quiet_not_report Hq).
  now rewrite !app_nil_r.
Qed.

Lemma tracks_sweep mode conc s0 s x s1 S R :
  yield (dvmHeapSweepUnmarkedObjects mode conc) s = Done x s1 ->
  tracks s0 s S R ->
  tracks s0 s1 (S ++ [EvEnv (dvmHeapSweepUnmarkedObjects mode conc) x]) R.
Proof.
  rewrite yield_Done. intros E (evs & Ht & HS & HR).
  injection E as <- <-. unfold tracks. cbn [trace].
  eexists (evs ++ [_]). rewrite Ht, app_assoc. split; [reflexivity|].
  rewrite !filter_app, HS, HR. cbn. now rewrite app_nil_r.
Qed.

Lemma tracks_report fmt args s0 s x s1 S R :
  fmt = report_single \/ fmt = report_concurrent ->
  LOGD fmt args s = Done x s1 ->
  tracks s0 s S R ->
  tracks s0 s1 S (R ++ [EvLog LOG_DEBUG false fmt args]).
Proof.
  intros Hfmt E (evs & Ht & HS & HR). unfold LOGD, emit in E.
  injection E as _ <-. unfold tracks. cbn [trace record].
  eexists (evs ++ [_]). rewrite Ht, app_assoc. split; [reflexivity|].
  rewrite !filter_app, HS, HR. cbn.
  replace (String.eqb fmt report_single || String.eqb fmt report_concurrent)
    with true; [now rewrite app_nil_r|].
  destruct Hfmt as [-> | ->]; reflexivity.
Qed.

Lemma tracks_new_events {A} s0 s S R (x : A) :
  tracks s0 s S R ->
  filter is_sweep (new_events s0 (Done x s)) = S
  /\ filter is_gc_report (new_events s0 (Done x s)) = R.
Proof.
  intros (evs & Ht & HS & HR).
  erewrite new_events_app by exact Ht. now split.
Qed.

End Claims.

(** One statement of the driver: if it emits neither a sweep nor a report,
    move the bookkeeping of [tracks] past it. *)
Ltac quiet_walk H T :=
  let x := fresh "x" in
  let s1 := fresh "s" in
  let Hm := fresh "Hm" in
  let Hq := fresh "Hq" in
  apply bind_Done_inv in H; destruct H as (x & s1 & Hm & H);
  match type of Hm with
  | ?m _ = _ => assert (Hq : emits quiet m) by (solve [emits_auto])
  end;
  apply (tracks_quiet Hq Hm) in T; clear Hm Hq; cbv beta in H;
  try match type of H with
      | (let (_, _) := ?p in _) _ = _ => destruct p
      end.

Section Report.

Context {platform : Platform} {collaborators : Collaborators}.

Lemma freed_fields (n : N) :
  let marker : string :=
    if ((0 <? n) && (n <? 1024))%N then "<"%string else EmptyString in
  let freedK :=
    if negb (n =? 0)%N then MAX (n / 1024) 1 else 0%N in
  ((marker = "<"%string) <-> (0 < n /\ n < 1024)%N)
  /\ ((marker = "<"%string) \/ marker = EmptyString)
  /\ ((0 < n < 1024)%N -> freedK = 1%N)
  /\ (n = 0%N -> freedK = 0%N)
  /\ ((1024 <= n)%N -> freedK = (n / 1024)%N).
Proof.
  cbv zeta. unfold MAX.
  destruct (N.ltb_spec 0 n) as [Hpos | Hz];
    destruct (N.ltb_spec n 1024) as [Hlt | Hge]; cbn [andb].
  - assert ((n =? 0)%N = false) as -> by (apply N.eqb_neq; lia).
    rewrite N.div_small by exact Hlt. cbn.
    repeat split; try tauto; try lia; auto.
  - assert ((n =? 0)%N = false) as -> by (apply N.eqb_neq; lia).
    assert (1 <= n / 1024)%N as Hq
        by (apply N.div_le_lower_bound; lia).
    cbn [negb].
    repeat split; try discriminate; try lia; auto.
    intros _. destruct (N.ltb_spec 1 (n / 1024)); lia.
  - assert (n = 0)%N as -> by lia. cbn.
    repeat split; try discriminate; try lia; auto.
  - lia.
Qed.

Lemma gc_report_freed_walk clearSoftRefs reason s s' :
  running_in s = false ->
  dvmCollectGarbageInternal clearSoftRefs reason s = Done tt s' ->
  exists mode numObjectsFreed numBytesFreed rest,
    filter is_sweep (new_events s (Done tt s'))
    = [EvEnv
         (dvmHeapSweepUnmarkedObjects mode
            (GcReason_eqb reason GC_CONCURRENT))
         (numObjectsFreed, numBytesFreed)]
    /\ filter is_gc_report (new_events s (Done tt s'))
       = [EvLog LOG_DEBUG false
            (if GcReason_eqb reason GC_CONCURRENT
             then report_concurrent else report_single)
            (ArgS (GcReasonStr reason)
             :: ArgS (if ((0 <? numBytesFreed)
                          && (numBytesFreed <? 1024))%N
                      then "<"%string else EmptyString)
             :: ArgN (if negb (numBytesFreed =? 0)%N
                      then MAX (numBytesFreed / 1024) 1 else 0%N)
             :: rest)].
Proof.
  intros Hrun H. unfold running_in in Hrun.
  unfold dvmCollectGarbageInternal in H.
  unfold bind at 1 in H. unfold gets at 1 in H. rewrite Hrun in H.
  cbv zeta in H.
  pose proof (tracks_refl s) as T.
  repeat quiet_walk H T.
  apply bind_Done_inv in H. destruct H as ([nObj nBytes] & sw & Hsw & H).
  pose proof (tracks_sweep _ _ Hsw T) as T'.
  clear T Hsw. rename T' into T. cbv beta iota in H.
  repeat quiet_walk H T.
  apply bind_Done_inv in H. destruct H as (u & sr & Hr & H).
  assert (Hd : emits quiet ddmDumps) by emits_auto.
  unfold gcReport in Hr. cbv zeta in Hr.
  exists (if GcReason_eqb reason GC_FOR_MALLOC then GC_PARTIAL else GC_FULL),
    nObj, nBytes.
  destruct (GcReason_eqb reason GC_CONCURRENT); cbn [negb] in Hr.
  - pose proof (tracks_report (or_intror eq_refl) Hr T)
      as T1.
    pose proof (tracks_quiet Hd H T1) as T2.
    eexists. exact (tracks_new_events tt T2).
  - pose proof (tracks_report (or_introl eq_refl) Hr T)
      as T1.
    pose proof (tracks_quiet Hd H T1) as T2.
    eexists. exact (tracks_new_events tt T2).
Qed.

(** C8.  A collection that runs to its end logs exactly one report, in
    the single-pause format unless the reason is [GC_CONCURRENT], in the
    two-pause format if it is.  In both formats, with [numBytesFreed] the
    byte count that the one sweep of the cycle returned: the marker
    argument is ["<"] exactly when [0 < numBytesFreed < 1024], and empty
    otherwise; the amount argument is [1] when [0 < numBytesFreed < 1024],
    [0] when [numBytesFreed = 0], and [numBytesFreed / 1024] (rounded down)
    when [numBytesFreed >= 1024]. *)
Theorem gc_report_freed_amount clearSoftRefs reason s s' :
  running_in s = false ->
  dvmCollectGarbageInternal clearSoftRefs reason s = Done tt s' ->
  exists mode numObjectsFreed numBytesFreed marker freedK rest,
    filter is_sweep (new_events s (Done tt s'))
    = [EvEnv
         (dvmHeapSweepUnmarkedObjects mode
            (GcReason_eqb reason GC_CONCURRENT))
         (numObjectsFreed, numBytesFreed)]
    /\ filter is_gc_report (new_events s (Done tt s'))
       = [EvLog LOG_DEBUG false
            (if GcReason_eqb reason GC_CONCURRENT
             then report_concurrent else report_single)
            (ArgS (GcReasonStr reason) :: ArgS marker :: ArgN freedK
             :: rest)]
    /\ ((marker = "<"%string) <-> (0 < numBytesFreed < 1024)%N)
    /\ ((marker = "<"%string) \/ marker = EmptyString)
    /\ ((0 < numBytesFreed < 1024)%N -> freedK = 1%N)
    /\ (numBytesFreed = 0%N -> freedK = 0%N)
    /\ ((1024 <= numBytesFreed)%N -> freedK = (numBytesFreed / 1024)%N).
Proof.
  intros Hrun H.
  destruct (gc_report_freed_walk _ _ _ Hrun H)
    as (mode & nObj & nBytes & rest & Hs & Hr).
  exists mode, nObj, nBytes. eexists _, _, rest.
  split; [exact Hs|]. split; [exact Hr|].
  exact (freed_fields nBytes).
Qed.

End Report.


(** * Further properties of [Heap.c] *)

Section Views.

Context {platform : Platform} {collaborators : Collaborators}.

Lemma view_app {L} (v : Event -> option L) t t' :
  view v (t ++ t') = view v t ++ view v t'.
Proof.
  induction t as [|e t IH]; cbn; [reflexivity|].
  destruct (v e); cbn; now rewrite IH.
Qed.

Lemma view_hidden {L} (v : Event -> option L) t :
  forallb (hidden v) t = true -> view v t = [].
Proof.
  induction t as [|e t IH]; cbn; [reflexivity|].
  unfold hidden at 1. destruct (v e); cbn; [discriminate | exact IH].
Qed.

Lemma shows_quiet {A L} (v : Event -> option L) (m : M A) :
  emits (hidden v) m -> shows v [] m.
Proof.
  intros Hm s x s' E. destruct (emits_trace s Hm) as (evs & Ht & Hq).
  rewrite E in Ht. exists evs. split; [exact Ht | now apply view_hidden].
Qed.

Lemma shows_bind {A B L} (v : Event -> option L) l l1 l2 (m : M A)
    (k : A -> M B) :
  shows v l1 m -> (forall x, shows v l2 (k x)) -> l = l1 ++ l2 ->
  shows v l (bind m k).
Proof.
  intros Hm Hk -> s y s' E. apply bind_Done_inv in E.
  destruct E as (x & s1 & E1 & E2).
  destruct (Hm _ _ _ E1) as (e1 & T1 & V1).
  destruct (Hk x _ _ _ E2) as (e2 & T2 & V2).
  exists (e1 ++ e2). rewrite T2, T1, app_assoc. split; [reflexivity|].
  now rewrite view_app, V1, V2.
Qed.

Lemma shows_call {R L} (v : Event -> option L) lab (c : ExtCall R) :
  (forall r, v (EvCall c r) = Some lab) -> shows v [lab] (call c).
Proof.
  intros H s x s' E. rewrite call_Done in E. injection E as <- <-.
  eexists [_]. split; [reflexivity|]. cbn. now rewrite H.
Qed.

Lemma shows_yield {R L} (v : Event -> option L) lab (c : EnvCall R) :
  (forall r, v (EvEnv c r) = Some lab) -> shows v [lab] (yield c).
Proof.
  intros H s x s' E. rewrite yield_Done in E. injection E as <- <-.
  eexists [_]. split; [reflexivity|]. cbn. now rewrite H.
Qed.

Lemma shows_new_events {A L} (v : Event -> option L) l (m : M A) s x s' :
  shows v l m -> m s = Done x s' -> view v (new_events s (Done x s')) = l.
Proof.
  intros H E. destruct (H _ _ _ E) as (evs & Ht & Hv).
  erewrite new_events_app by exact Ht. exact Hv.
Qed.

(** ** Computations that always return *)

Lemma returns_ret {A} (a : A) : returns (ret a).
Proof. intros s. now exists a, s. Qed.

Lemma returns_gets {A} (f : World -> A) : returns (gets f).
Proof. intros s. eexists _, _. reflexivity. Qed.

Lemma returns_modify f : returns (modify f).
Proof. intros s. eexists _, _. reflexivity. Qed.

Lemma returns_emit e : returns (emit e).
Proof. intros s. eexists _, _. reflexivity. Qed.

Lemma returns_query {R} (q : Query R) : returns (query q).
Proof. intros s. eexists _, _. reflexivity. Qed.

Lemma returns_call {R} (c : ExtCall R) : returns (call c).
Proof. intros s. rewrite call_Done. eexists _, _. reflexivity. Qed.

Lemma returns_yield {R} (c : EnvCall R) : returns (yield c).
Proof. intros s. rewrite yield_Done. eexists _, _. reflexivity. Qed.

Lemma returns_bind {A B} (m : M A) (k : A -> M B) :
  returns m -> (forall x, returns (k x)) -> returns (bind m k).
Proof.
  intros Hm Hk s. destruct (Hm s) as (x & s1 & E).
  destruct (Hk x s1) as (y & s2 & E2).
  exists y, s2. unfold bind. now rewrite E.
Qed.

Lemma returns_when c m : returns m -> returns (when c m).
Proof. destruct c; cbn; [auto | intros _; apply returns_ret]. Qed.

(** ** Computations that leave [gDvm] and the thread alone *)

Lemma keeps_ret {A} (a : A) : keeps_vm (ret a).
Proof. intros s. now split. Qed.

Lemma keeps_gets {A} (f : World -> A) : keeps_vm (gets f).
Proof. intros s. now split. Qed.

Lemma keeps_emit e : keeps_vm (emit e).
Proof. intros s. now split. Qed.

Lemma keeps_query {R} (q : Query R) : keeps_vm (query q).
Proof. intros s. now split. Qed.

Lemma keeps_call {R} (c : ExtCall R) : keeps_vm (call c).
Proof. intros s. rewrite call_Done. now split. Qed.

Lemma keeps_dvmAbort {A} : keeps_vm (@dvmAbort _ A).
Proof. intros s. now split. Qed.

Lemma keeps_crash {A} : keeps_vm (fun s => @Aborted _ A s).
Proof. intros s. now split. Qed.

Lemma keeps_bind {A B} (m : M A) (k : A -> M B) :
  keeps_vm m -> (forall x, keeps_vm (k x)) -> keeps_vm (bind m k).
Proof.
  intros Hm Hk s. specialize (Hm s). unfold bind.
  destruct (m s) as [x s1 | s1 | s1]; cbn in Hm; [|exact Hm|exact Hm].
  destruct (Hk x s1) as [G T]. destruct Hm as [G1 T1].
  split; congruence.
Qed.

Lemma keeps_when c m : keeps_vm m -> keeps_vm (when c m).
Proof. destruct c; cbn; [auto | intros _; apply keeps_ret]. Qed.

Lemma keeps_must c : keeps_vm (must c).
Proof.
  unfold must. apply keeps_bind; [apply keeps_call|].
  intros [|]; [apply keeps_ret | apply keeps_crash].
Qed.

(** ** Computations that abort early or not at all *)

Lemma aborts_within_returns {A} p (m : M A) :
  returns m -> aborts_within p m.
Proof. intros H s. destruct (H s) as (x & s' & ->). exact I. Qed.


Lemma aborts_within_must p (c : ExtCall bool) :
  (forall r, p (EvCall c r) = true) -> aborts_within p (must c).
Proof.
  intros H s. unfold must, bind. rewrite call_Done.
  destruct (fst (on_call c (ext (world s)))); cbn; [exact I|].
  eexists [_]. split; [reflexivity|]. cbn. now rewrite H.
Qed.

Lemma aborts_within_abort_when p c e :
  p e = true -> p EvAbort = true ->
  aborts_within p (when c (emit e;; dvmAbort)).
Proof.
  intros He Ha s. destruct c; cbn; [|exact I].
  eexists [_; _]. split.
  - rewrite <- app_assoc. reflexivity.
  - cbn. now rewrite He, Ha.
Qed.

End Views.

Ltac keeps_step :=
  match goal with
  | |- forall _, _ => intro
  | |- keeps_vm (bind _ _) => apply keeps_bind
  | |- keeps_vm (ret _) => apply keeps_ret
  | |- keeps_vm (gets _) => apply keeps_gets
  | |- keeps_vm (when _ _) => apply keeps_when
  | |- keeps_vm (emit _) => apply keeps_emit
  | |- keeps_vm (query _) => apply keeps_query
  | |- keeps_vm (call _) => apply keeps_call
  | |- keeps_vm (must _) => apply keeps_must
  | |- keeps_vm dvmAbort => apply keeps_dvmAbort
  | |- keeps_vm (if ?b then _ else _) => destruct b
  | |- keeps_vm (match ?x with _ => _ end) => destruct x
  | |- keeps_vm (let (_, _) := ?x in _) => destruct x
  end.

Ltac keeps_auto := emits_unfold; repeat keeps_step.

Ltac returns_step :=
  match goal with
  | |- forall _, _ => intro
  | |- returns (bind _ _) => apply returns_bind
  | |- returns (ret _) => apply returns_ret
  | |- returns (gets _) => apply returns_gets
  | |- returns (modify _) => apply returns_modify
  | |- returns (when _ _) => apply returns_when
  | |- returns (emit _) => apply returns_emit
  | |- returns (query _) => apply returns_query
  | |- returns (call _) => apply returns_call
  | |- returns (yield _) => apply returns_yield
  | |- returns (if ?b then _ else _) => destruct b
  | |- returns (match ?x with _ => _ end) => destruct x
  | |- returns (let (_, _) := ?x in _) => destruct x
  end.

Ltac returns_auto := emits_unfold; repeat returns_step.

(** Reads a function of [Heap.c] statement by statement through a view. *)
Ltac shows_walk :=
  cbv beta;
  cbn [GcReason_eqb negb when];
  first
    [ apply shows_quiet; solve [emits_auto]
    | eapply shows_call; intros; reflexivity
    | eapply shows_yield; intros; reflexivity
    | eapply shows_bind;
      [ shows_walk
      | intros;
        try match goal with
            | |- shows _ _ (let (_, _) := ?p in _) => destruct p
            end;
        shows_walk
      | reflexivity ]
    | progress unfold dvmLockHeap, dvmUnlockHeap; shows_walk ].

Section Cycle.

Context {platform : Platform} {collaborators : Collaborators}.

(** The statements of [dvmCollectGarbageInternal] after the recursion
    guard, as the run of a collection that found [gcRunning] clear. *)
Ltac enter_collection Hrun H :=
  unfold running_in in Hrun;
  unfold dvmCollectGarbageInternal in H;
  unfold bind at 1 in H; unfold gets at 1 in H; rewrite Hrun in H;
  cbv zeta in H.

(** X1.  The steps of a collection that runs to its end, in order: the
    mutators are suspended once around the whole cycle when the collection
    is not concurrent; when it is, they are suspended for the root marking,
    run during the scan, are suspended again for the re-marking, the
    reference processing and the bitmap swap, and run during the sweep.
    The mode is partial exactly for [GC_FOR_MALLOC], and the same at the
    mark setup and at the sweep; references are processed once, with the
    [clearSoftRefs] the caller gave. *)
Theorem collection_steps clearSoftRefs reason s s' :
  running_in s = false ->
  dvmCollectGarbageInternal clearSoftRefs reason s = Done tt s' ->
  view cycle_view (new_events s (Done tt s')) = cycle_of clearSoftRefs reason.
Proof.
  intros Hrun H. enter_collection Hrun H.
  match type of H with
  | ?body s = _ =>
      assert (Hs : shows cycle_view (cycle_of clearSoftRefs reason) body)
  end.
  { destruct reason; cbn [cycle_of]; shows_walk. }
  eapply shows_new_events; eassumption.
Qed.

(** [dvmLockHeap] is one acquisition of the heap lock: by the
    [dvmTryLockMutex] when it returns 0, by the [dvmLockMutex] otherwise. *)
Lemma dvmLockHeap_acquires :
  shows lock_view [Acquire gcHeapLock] dvmLockHeap.
Proof.
  intros s x s' E. unfold dvmLockHeap in E.
  apply bind_Done_inv in E. destruct E as (rc & s1 & E1 & E).
  rewrite call_Done in E1. injection E1 as Erc <-.
  apply bind_Done_inv in E. destruct E as (u & s2 & E2 & E).
  injection E as _ <-.
  destruct (rc =? 0)%Z eqn:Hrc; cbn [negb when] in E2.
  - injection E2 as _ <-. eexists [_]. split; [reflexivity|].
    cbn [view lock_view]. now rewrite Erc, Hrc.
  - apply bind_Done_inv in E2. destruct E2 as (self & s3 & E3 & E2).
    injection E3 as _ <-.
    apply bind_Done_inv in E2. destruct E2 as (old & s4 & E4 & E2).
    rewrite call_Done in E4. injection E4 as _ <-.
    apply bind_Done_inv in E2. destruct E2 as (u1 & s5 & E5 & E2).
    rewrite call_Done in E5. injection E5 as _ <-.
    apply bind_Done_inv in E2. destruct E2 as (u2 & s6 & E6 & E2).
    rewrite call_Done in E6. injection E6 as _ <-.
    injection E2 as _ <-.
    eexists [_; _; _; _]. cbn [trace world ext].
    split; [rewrite <- !app_assoc; reflexivity|].
    cbn [view lock_view]. now rewrite Erc, Hrc.
Qed.

(** Reads a function of [Heap.c] statement by statement for its locks. *)
Ltac locks_walk :=
  cbv beta;
  cbn [GcReason_eqb negb when];
  first
    [ apply dvmLockHeap_acquires
    | apply shows_quiet; solve [emits_auto]
    | eapply shows_call; intros; reflexivity
    | eapply shows_yield; intros; reflexivity
    | eapply shows_bind;
      [ locks_walk
      | intros;
        try match goal with
            | |- shows _ _ (let (_, _) := ?p in _) => destruct p
            end;
        locks_walk
      | reflexivity ]
    | progress unfold dvmUnlockHeap; locks_walk ].

(** X2.  The locks of a collection that runs to its end: the worker lock
    and the worker-list lock are taken in that order and released in the
    opposite order.  A collection that is not concurrent makes no call on
    the heap lock at all, not even a try; a concurrent one releases it and
    takes it again twice, so that it returns with the lock held as it
    found it, and broadcasts the condition once, after releasing the
    worker locks.  Every blocking lock and every successful try-lock of a
    mutex counts as taking it. *)
Theorem collection_locks clearSoftRefs reason s s' :
  running_in s = false ->
  dvmCollectGarbageInternal clearSoftRefs reason s = Done tt s' ->
  view lock_view (new_events s (Done tt s')) = locks_of reason
  /\ (reason <> GC_CONCURRENT ->
      existsb on_heap_lock (new_events s (Done tt s')) = false).
Proof.
  intros Hrun H. enter_collection Hrun H. split.
  - match type of H with
    | ?body s = _ => assert (Hs : shows lock_view (locks_of reason) body)
    end.
    { destruct reason; cbn [locks_of]; locks_walk. }
    eapply shows_new_events; eassumption.
  - intros Hr.
    assert (Hc : GcReason_eqb reason GC_CONCURRENT = false)
      by (destruct reason; [reflexivity | contradiction | reflexivity]).
    rewrite Hc in H. cbn [negb when] in H.
    match type of H with
    | ?body s = _ =>
        assert (He : emits (fun e => negb (on_heap_lock e)) body)
          by emits_auto
    end.
    destruct (emits_trace s He) as (evs & T & P). rewrite H in T.
    cbn [final_state] in T. erewrite new_events_app by exact T.
    now apply forallb_negb_existsb.
Qed.

End Cycle.

Section CycleEnds.

Context {platform : Platform} {collaborators : Collaborators}.

(** X3.  A collection that runs to its end returns with [gcRunning]
    false: the flag is cleared before the worker locks are released, and
    nothing that follows writes it. *)
Theorem collection_clears_running clearSoftRefs reason s s' :
  running_in s = false ->
  dvmCollectGarbageInternal clearSoftRefs reason s = Done tt s' ->
  running_in s' = false.
Proof.
  intros Hrun H. unfold running_in in Hrun.
  unfold dvmCollectGarbageInternal in H.
  unfold bind at 1 in H. unfold gets at 1 in H. rewrite Hrun in H.
  cbv zeta in H.
  repeat match type of H with
         | bind (modify (with_gcHeap (set_gcRunning false))) _ _ = _ =>
             fail 1
         | bind _ _ _ = _ =>
             let x := fresh "x" in
             let s1 := fresh "s" in
             apply bind_Done_inv in H; destruct H as (x & s1 & _ & H);
             cbv beta in H;
             try match type of H with
                 | (let (_, _) := ?p in _) _ = _ => destruct p
                 end
         end.
  unfold bind at 1 in H. unfold modify at 1 in H.
  match type of H with
  | ?rest ?s1 = _ =>
      assert (K : keeps_vm rest) by keeps_auto;
      destruct (K s1) as [G _]
  end.
  rewrite H in G. cbn in G. unfold running_in, the_gcHeap. now rewrite G.
Qed.

(** X4.  A concurrent collection, however it ends, neither reads nor
    changes the priority or the scheduling policy of the thread that runs
    it. *)
Theorem concurrent_collection_keeps_priority clearSoftRefs s :
  existsb is_priority_call
    (new_events s (dvmCollectGarbageInternal clearSoftRefs GC_CONCURRENT s))
  = false.
Proof.
  apply forallb_negb_existsb, emits_new_events.
  emits_unfold. cbn [GcReason_eqb negb]. repeat emits_step.
Qed.


(** X6.  Whatever the request and however it ends, [tryMalloc] does
    nothing to the heap lock its caller holds but wait on the condition
    variable: it makes no [dvmTryLockMutex], [dvmLockMutex] or
    [dvmUnlockMutex] on it and never broadcasts; and the collections it
    runs are never full and never concurrent. *)
Theorem tryMalloc_keeps_heap_lock fuel size s :
  forallb allowed_under_heap_lock (new_events s (tryMalloc fuel size s))
  = true.
Proof.
  apply emits_new_events.
  emits_unfold. cbn [GcReason_eqb negb when]. repeat emits_step.
Qed.

End CycleEnds.

Section Allocation.

Context {platform : Platform} {collaborators : Collaborators}.

Lemma dvmMalloc_locked_tracks_nothing fuel size flags :
  emits (fun e => negb (is_tracked_alloc e))
    (dvmMalloc_locked fuel size flags).
Proof. unfold dvmMalloc_locked. emits_auto. Qed.

Lemma throwOOME_tracks_nothing :
  emits (fun e => negb (is_tracked_alloc e)) throwOOME.
Proof. emits_auto. Qed.

Lemma filter_none {A} (f : A -> bool) l :
  forallb (fun x => negb (f x)) l = true -> filter f l = [].
Proof.
  induction l as [|x l IH]; cbn; [reflexivity|].
  rewrite andb_true_iff. intros [Hx Hl].
  apply negb_true_iff in Hx. now rewrite Hx, IH.
Qed.

(** X7.  What [dvmMalloc] hands to [dvmAddTrackedAlloc]: the object it
    returns, once, when the request does not carry [ALLOC_DONT_TRACK];
    nothing when it does, and nothing when the allocation fails.  So the
    caller owes one [dvmReleaseTrackedAlloc] exactly for a non-null result
    of a request without [ALLOC_DONT_TRACK]. *)
Theorem dvmMalloc_tracks_result fuel size flags s p s' :
  dvmMalloc fuel size flags s = Done p s' ->
  filter is_tracked_alloc (new_events s (Done p s'))
  = match p with
    | Some a =>
        if (Z.land flags ALLOC_DONT_TRACK =? 0)%Z then [tracked_event a]
        else []
    | None => []
    end.
Proof.
  intros H. rewrite dvmMalloc_split in H. apply bind_Done_inv in H.
  destruct H as (q & s1 & Hl & Hu).
  destruct (emits_trace s (dvmMalloc_locked_tracks_nothing fuel size flags))
    as (e1 & T1 & P1).
  rewrite Hl in T1. cbn [final_state] in T1.
  unfold dvmMalloc_unlocked in Hu. apply bind_Done_inv in Hu.
  destruct Hu as (u & s2 & Hu & Hr). injection Hr as -> ->.
  destruct p as [a|]; cbn [is_null negb] in Hu.
  - destruct (Z.land flags ALLOC_DONT_TRACK =? 0)%Z; cbn [when] in Hu.
    + rewrite call_Done in Hu. injection Hu as _ <-.
      erewrite new_events_app
        by (cbn [final_state trace]; rewrite T1, <- app_assoc; reflexivity).
      rewrite filter_app, (filter_none _ _ P1). cbn.
      unfold tracked_event. now rewrite (unit_eta (fst _)).
    + injection Hu as _ <-.
      erewrite new_events_app by exact T1. now apply filter_none.
  - destruct (emits_trace s1 throwOOME_tracks_nothing) as (e2 & T2 & P2).
    rewrite Hu in T2. cbn [final_state] in T2.
    erewrite new_events_app
      by (cbn [final_state]; rewrite T2, T1, <- app_assoc; reflexivity).
    rewrite filter_app, (filter_none _ _ P1), (filter_none _ _ P2).
    reflexivity.
Qed.

(** X8.  [dvmMalloc] asks for room in [finalizableRefs] only on behalf
    of an object it has allocated for a request with [ALLOC_FINALIZABLE]:
    never when the flag is clear, however the call ends, and never when
    the allocation fails. *)
Theorem dvmMalloc_appends_only_finalizable fuel size flags s :
  (Z.land flags ALLOC_FINALIZABLE = 0%Z ->
   existsb is_table_room (new_events s (dvmMalloc fuel size flags s)) = false)
  /\ (forall s',
        dvmMalloc fuel size flags s = Done NULL s' ->
        existsb is_table_room (new_events s (Done NULL s')) = false).
Proof.
  split.
  - intros Hf. apply Z.eqb_eq in Hf.
    apply forallb_negb_existsb, emits_new_events.
    unfold dvmMalloc.
    apply emits_bind; [emits_auto|]. intros _.
    apply emits_bind; [emits_auto|]. intros p.
    apply emits_bind.
    { unfold recordAllocation. rewrite Hf. cbn [negb when].
      destruct p; emits_auto. }
    intros _. emits_auto.
  - intros s' H.
    assert (E : emits (fun e => negb (is_table_room e))
                  (dvmLockHeap;;
                   tryMalloc fuel size;;
                   recordAllocation size flags NULL;;
                   dvmUnlockHeap;; throwOOME;; ret NULL)).
    { apply emits_bind; [emits_auto|]. intros _.
      apply emits_bind; [emits_auto|]. intros _.
      apply emits_bind; [unfold recordAllocation, NULL; emits_auto|].
      intros _. emits_auto. }
    assert (H' : (dvmLockHeap;;
                  tryMalloc fuel size;;
                  recordAllocation size flags NULL;;
                  dvmUnlockHeap;; throwOOME;; ret NULL) s = Done NULL s').
    { unfold dvmMalloc in H. unfold bind at 1 in H. unfold bind at 1.
      destruct (dvmLockHeap s) as [b s1 | s1 | s1]; try discriminate.
      unfold bind at 1 in H. unfold bind at 1.
      destruct (tryMalloc fuel size s1) as [p s2 | s2 | s2] eqn:Et;
        try discriminate.
      assert (p = NULL) as ->.
      { repeat (apply bind_Done_inv in H; destruct H as (? & ? & _ & H)).
        now injection H. }
      exact H. }
    rewrite <- H'. apply forallb_negb_existsb, emits_new_events, E.
Qed.

(** X9.  [throwOOME] does not return with [throwingOOME] set: whichever
    way it set the exception of a thread that has a [Thread] structure,
    the flag of the structure is false afterwards. *)
Theorem throwOOME_clears_flag s s' t' :
  throwOOME s = Done tt s' ->
  curThread (world s') = Some t' ->
  throwingOOME t' = false.
Proof.
  intros H Ht'. unfold throwOOME, dvmThreadSelf in H.
  unfold bind at 1 in H. unfold gets at 1 in H.
  destruct (curThread (world s)) as [t|] eqn:C;
    cbn [thread_is_null negb when] in H;
    [|injection H as <-; congruence].
  apply bind_Done_inv in H. destruct H as (onList & s1 & _ & H).
  apply bind_Done_inv in H. destruct H as (throwing & s2 & _ & H).
  apply bind_Done_inv in H. destruct H as (u & s3 & _ & H).
  unfold modify in H. injection H as <-. cbn in Ht'.
  destruct (curThread (world s3)); cbn in Ht'; [|discriminate].
  now injection Ht' as <-.
Qed.

(** X10.  [dvmLockHeap] always returns [true], and leaves the fields of
    [gDvm] and of the thread alone.  When the try-lock succeeds it calls
    nothing else.  When it fails, the thread goes to [THREAD_VMWAIT],
    blocks on the heap lock, and is put back in the status that
    [dvmChangeStatus] reported it had before. *)
Theorem dvmLockHeap_restores_status s :
  let rc := fst (on_call (dvmTryLockMutex gcHeapLock) (ext (world s))) in
  exists s',
    dvmLockHeap s = Done true s'
    /\ gDvm (world s') = gDvm (world s)
    /\ curThread (world s') = curThread (world s)
    /\ if (rc =? 0)%Z then
         new_events s (Done true s')
         = [EvCall (dvmTryLockMutex gcHeapLock) rc]
       else
         exists oldStatus other,
           new_events s (Done true s')
           = [EvCall (dvmTryLockMutex gcHeapLock) rc;
              EvCall (dvmChangeStatus (self_of s) THREAD_VMWAIT) oldStatus;
              EvCall (dvmLockMutex gcHeapLock) tt;
              EvCall (dvmChangeStatus (self_of s) oldStatus) other].
Proof.
  cbv zeta. unfold dvmLockHeap. unfold bind at 1. rewrite call_Done.
  destruct (fst (on_call (dvmTryLockMutex gcHeapLock) (ext (world s))) =? 0)%Z
    eqn:R; cbn [negb when].
  - unfold bind, ret. eexists. split; [reflexivity|]. cbn.
    split; [reflexivity|]. split; [reflexivity|].
    now apply new_events_app.
  - unfold dvmThreadSelf, bind, gets, ret. rewrite !call_Done. cbn.
    eexists. split; [reflexivity|]. cbn.
    split; [reflexivity|]. split; [reflexivity|].
    eexists _, _. apply new_events_app. cbn. rewrite <- !app_assoc. cbn.
    unfold self_of.
    match goal with
    | |- context [EvCall (dvmLockMutex gcHeapLock) (fst ?x)] =>
        rewrite (unit_eta (fst x))
    end.
    reflexivity.
Qed.

Lemma poll_finalizes p : forall op s,
  referenceOperations (the_gcHeap (world s)) = [] ->
  pendingFinalizationRefs (the_gcHeap (world s)) = p ->
  exists s',
    poll (List.length p) op s
    = Done (map (fun o => (Some o, WORKER_FINALIZE)) p) s'
    /\ referenceOperations (the_gcHeap (world s')) = []
    /\ pendingFinalizationRefs (the_gcHeap (world s')) = [].
Proof.
  induction p as [|o p IH]; intros op s Hr Hp; cbn [List.length poll map].
  - exists s. now repeat split.
  - destruct (next_worker_finalize op s Hr Hp) as (s1 & E & Hr1 & Hp1 & _).
    destruct (IH WORKER_FINALIZE s1 Hr1 Hp1) as (s' & E' & Hr' & Hp').
    exists s'. unfold bind at 1. rewrite E. cbn [snd].
    unfold bind, ret. rewrite E'. now repeat split.
Qed.

(** X11.  A worker that polls as many times as there are entries in the
    two tables gets every entry exactly once, in table order: all the
    reference enqueues first, then all the finalizations; and it leaves
    both tables empty. *)
Theorem poll_drains_in_order op s :
  let refs := referenceOperations (the_gcHeap (world s)) in
  let fins := pendingFinalizationRefs (the_gcHeap (world s)) in
  exists s',
    poll (List.length refs + List.length fins) op s
    = Done (map (fun o => (Some o, WORKER_ENQUEUE)) refs
            ++ map (fun o => (Some o, WORKER_FINALIZE)) fins) s'
    /\ referenceOperations (the_gcHeap (world s')) = []
    /\ pendingFinalizationRefs (the_gcHeap (world s')) = [].
Proof.
  cbv zeta.
  remember (referenceOperations (the_gcHeap (world s))) as refs eqn:Hr.
  symmetry in Hr. revert op s Hr.
  induction refs as [|o refs IH]; intros op s Hr.
  - cbn [List.length Nat.add map app]. now apply poll_finalizes.
  - destruct (next_worker_enqueue op s Hr) as (s1 & E & Hr1 & Hp1 & _).
    destruct (IH WORKER_ENQUEUE s1 Hr1) as (s' & E' & Hr' & Hp').
    exists s'. cbn [List.length Nat.add poll map app].
    unfold bind at 1. rewrite E. cbn [snd].
    unfold bind, ret. rewrite <- Hp1, E'. now repeat split.
Qed.

End Allocation.

Section LastResort.

Context {platform : Platform} {collaborators : Collaborators}.

Lemma last_resort_quiet {A} size (m : M A) :
  emits keeps_soft m -> last_resort size m.
Proof.
  intros H s. destruct (emits_trace s H) as (evs & T & P).
  exists evs. split; [exact T|]. intros E.
  apply forallb_negb_existsb in P. congruence.
Qed.

Lemma last_resort_bind {A B} size (m : M A) (k : A -> M B) :
  emits keeps_soft m -> (forall x, last_resort size (k x)) ->
  last_resort size (bind m k).
Proof.
  intros Hm Hk s. destruct (emits_trace s Hm) as (e1 & T1 & P1).
  apply forallb_negb_existsb in P1. unfold bind.
  destruct (m s) as [x s1 | s1 | s1]; cbn [final_state] in T1.
  - destruct (Hk x s1) as (e2 & T2 & G2). exists (e1 ++ e2).
    rewrite T2, T1, app_assoc. split; [reflexivity|]. intros E.
    rewrite existsb_app, P1 in E. cbn in E.
    destruct (G2 E) as (before & after & -> & Hb).
    exists (e1 ++ before), after. rewrite app_assoc.
    split; [reflexivity|]. now rewrite existsb_app, P1, Hb.
  - exists e1. split; [exact T1|]. intros E. congruence.
  - exists e1. split; [exact T1|]. intros E. congruence.
Qed.

Lemma last_resort_grow {A} size (k1 : addr -> M A) (k2 : M A) :
  (forall a, emits keeps_soft (k1 a)) -> emits any_event k2 ->
  last_resort size
    (ptr <- call (dvmHeapSourceAllocAndGrow size) ;;
     match ptr with Some a => k1 a | None => k2 end).
Proof.
  intros H1 H2 s. unfold bind. rewrite call_Done.
  destruct (fst (on_call (dvmHeapSourceAllocAndGrow size) (ext (world s))))
    as [a|].
  - match goal with
    | |- context [k1 a ?s1] =>
        destruct (emits_trace s1 (H1 a)) as (e & T & P)
    end.
    eexists (_ :: e). split.
    + rewrite T. cbn [trace]. rewrite <- app_assoc. reflexivity.
    + intros E. cbn in E. apply forallb_negb_existsb in P. congruence.
  - match goal with
    | |- context [k2 ?s1] =>
        destruct (emits_trace s1 H2) as (e & T & _)
    end.
    eexists (_ :: e). split.
    + rewrite T. cbn [trace]. rewrite <- app_assoc. reflexivity.
    + intros _. exists [], e. now split.
Qed.

(** X12.  Soft references are the last resort: for a request below
    [heapGrowthLimit], however [tryMalloc] ends, a reference pass that
    clears soft references happens only after
    [dvmHeapSourceAllocAndGrow] has been tried for the request and has
    returned [NULL]. *)
Theorem tryMalloc_clears_soft_refs_last fuel size s :
  (size < heapGrowthLimit (gDvm (world s)))%N ->
  soft_cleared_after_failed_growth size
    (new_events s (tryMalloc fuel size s)).
Proof.
  intros Hlt. apply N.leb_gt in Hlt.
  assert (L : last_resort size
                (ptr <- call (dvmHeapSourceAlloc size) ;;
                 if negb (is_null ptr) then ret ptr
                 else
                   running <- gets (fun w => gcRunning (the_gcHeap w)) ;;
                   ptr <-
                     (if running then
                        dvmWaitForConcurrentGcToComplete fuel;;
                        call (dvmHeapSourceAlloc size)
                      else ret ptr) ;;
                   if negb (is_null ptr) then ret ptr
                   else
                     gcForMalloc false;;
                     ptr <- call (dvmHeapSourceAlloc size) ;;
                     if negb (is_null ptr) then ret ptr
                     else
                       ptr <- call (dvmHeapSourceAllocAndGrow size) ;;
                       match ptr with
                       | Some a =>
                           newHeapSize <-
                             query dvmHeapSourceGetIdealFootprint ;;
                           LOGI_HEAP
                             "Grow heap (frag case) to %zu.%03zuMB for %zu-byte allocation\n"
                             [ArgN (fst (FRACTIONAL_MB newHeapSize));
                              ArgN (snd (FRACTIONAL_MB newHeapSize));
                              ArgN size];;
                           ret (Some a)
                       | None => collect_soft_refs size
                       end)).
  { apply last_resort_bind; [emits_auto|].
    intros [a|]; cbn [is_null negb];
      [apply last_resort_quiet; emits_auto|].
    apply last_resort_bind; [emits_auto|]. intros running.
    apply last_resort_bind; [emits_auto|].
    intros [a|]; cbn [is_null negb];
      [apply last_resort_quiet; emits_auto|].
    apply last_resort_bind; [emits_auto|]. intros _.
    apply last_resort_bind; [emits_auto|].
    intros [a|]; cbn [is_null negb];
      [apply last_resort_quiet; emits_auto|].
    apply last_resort_grow; [intros a; emits_auto | emits_auto]. }
  destruct (L s) as (evs & T & G).
  assert (E : tryMalloc fuel size s
              = (ptr <- call (dvmHeapSourceAlloc size) ;;
                 if negb (is_null ptr) then ret ptr
                 else
                   running <- gets (fun w => gcRunning (the_gcHeap w)) ;;
                   ptr <-
                     (if running then
                        dvmWaitForConcurrentGcToComplete fuel;;
                        call (dvmHeapSourceAlloc size)
                      else ret ptr) ;;
                   if negb (is_null ptr) then ret ptr
                   else
                     gcForMalloc false;;
                     ptr <- call (dvmHeapSourceAlloc size) ;;
                     if negb (is_null ptr) then ret ptr
                     else
                       ptr <- call (dvmHeapSourceAllocAndGrow size) ;;
                       match ptr with
                       | Some a =>
                           newHeapSize <-
                             query dvmHeapSourceGetIdealFootprint ;;
                           LOGI_HEAP
                             "Grow heap (frag case) to %zu.%03zuMB for %zu-byte allocation\n"
                             [ArgN (fst (FRACTIONAL_MB newHeapSize));
                              ArgN (snd (FRACTIONAL_MB newHeapSize));
                              ArgN size];;
                           ret (Some a)
                       | None => collect_soft_refs size
                       end) s).
  { unfold tryMalloc. unfold bind at 1. unfold gets at 1. rewrite Hlt.
    apply bind_ext. intros [a|] s1; cbn [is_null negb]; [reflexivity|].
    apply bind_ext. intros running s2.
    apply bind_ext. intros [a|] s3; cbn [is_null negb]; [reflexivity|].
    apply bind_ext. intros _ s4.
    apply bind_ext. intros [a|] s5; cbn [is_null negb]; [reflexivity|].
    apply bind_ext. intros [a|] s6; reflexivity. }
  rewrite E. erewrite new_events_app by exact T. exact G.
Qed.

End LastResort.
Section Priority.

Context {platform : Platform} {collaborators : Collaborators}.

Lemma shows_some_skip {A B L} (v : Event -> option L) P (m : M A)
    (k : A -> M B) :
  emits (hidden v) m -> (forall x, shows_some v P (k x)) ->
  shows_some v P (bind m k).
Proof.
  intros Hm Hk s y s' E. apply bind_Done_inv in E.
  destruct E as (x & s1 & E1 & E2).
  destruct (emits_trace s Hm) as (e1 & T1 & V1). rewrite E1 in T1.
  cbn [final_state] in T1. apply view_hidden in V1.
  destruct (Hk x _ _ _ E2) as (e2 & T2 & V2).
  exists (e1 ++ e2). rewrite T2, T1, app_assoc. split; [reflexivity|].
  now rewrite view_app, V1.
Qed.

Lemma shows_some_then_quiet {A B L} (v : Event -> option L)
    (Q : list L -> Prop) (m : M A) (k : A -> M B) :
  shows_some v (fun _ => Q) m -> (forall x, emits (hidden v) (k x)) ->
  shows_some v (fun _ => Q) (bind m k).
Proof.
  intros Hm Hk s y s' E. apply bind_Done_inv in E.
  destruct E as (x & s1 & E1 & E2).
  destruct (Hm _ _ _ E1) as (e1 & T1 & V1).
  destruct (emits_trace s1 (Hk x)) as (e2 & T2 & V2). rewrite E2 in T2.
  cbn [final_state] in T2. apply view_hidden in V2.
  exists (e1 ++ e2). rewrite T2, T1, app_assoc. split; [reflexivity|].
  now rewrite view_app, V2, app_nil_r.
Qed.

Lemma shows_some_bind {A B L} (v : Event -> option L) P R (m : M A)
    (k : A -> M B) :
  shows_some v P m ->
  (forall x l1, P x l1 -> shows_some v (fun y l2 => R y (l1 ++ l2)) (k x)) ->
  shows_some v R (bind m k).
Proof.
  intros Hm Hk s y s' E. apply bind_Done_inv in E.
  destruct E as (x & s1 & E1 & E2).
  destruct (Hm _ _ _ E1) as (e1 & T1 & V1).
  destruct (Hk x _ V1 _ _ _ E2) as (e2 & T2 & V2).
  exists (e1 ++ e2). rewrite T2, T1, app_assoc. split; [reflexivity|].
  now rewrite view_app.
Qed.

(** [elevatePriority]: what it calls, and what it hands back. *)
Lemma elevatePriority_steps :
  shows_some priority_view
    (fun old l =>
       exists result errno rc,
         l = elevate_steps result errno rc
         /\ old = saved_priority result errno rc)
    elevatePriority.
Proof.
  intros s old s' E. unfold elevatePriority in E.
  apply bind_Done_inv in E. destruct E as ([result errno] & s1 & E1 & E).
  rewrite call_Done in E1. injection E1 as Er <-.
  destruct (errno =? 0)%Z eqn:He; cbn [negb] in E.
  2:{ match type of E with
      | ?m ?s0 = _ => assert (Hq : emits (hidden priority_view) m)
                        by emits_auto;
                      destruct (emits_trace s0 Hq) as (e2 & T2 & V2)
      end.
      rewrite E in T2.
      cbn [final_state trace] in T2. apply view_hidden in V2.
      eexists (_ :: e2). split.
      { rewrite T2, <- app_assoc. reflexivity. }
      exists result, errno, 0%Z. unfold elevate_steps, saved_priority.
      rewrite He. cbn [view priority_view andb].
      rewrite Er. cbn [fst snd]. rewrite V2. split; [reflexivity|].
      apply bind_Done_inv in E. destruct E as (? & ? & _ & E).
      apply bind_Done_inv in E. destruct E as (? & ? & _ & E).
      now injection E. }
  destruct (result >? ANDROID_PRIORITY_NORMAL)%Z eqn:Hn.
  2:{ injection E as <- <-. eexists [_]. split; [reflexivity|].
      exists result, errno, 0%Z. unfold elevate_steps, saved_priority.
      rewrite He, Hn. cbn [view priority_view andb].
      rewrite Er. now cbn [fst snd]. }
  apply bind_Done_inv in E. destruct E as ([] & s2 & E2 & E).
  apply bind_Done_inv in E. destruct E as ([rc e'] & s3 & E3 & E).
  rewrite call_Done in E3. injection E3 as Erc <-.
  assert (Hw : exists ew,
             trace s2 = (trace s ++ [EvCall getpriority (result, errno)]) ++ ew
             /\ view priority_view ew
                = if (result >=? ANDROID_PRIORITY_BACKGROUND)%Z
                  then [SetSchedPolicy SP_FOREGROUND] else []).
  { destruct (result >=? ANDROID_PRIORITY_BACKGROUND)%Z; cbn [when] in E2.
    - apply bind_Done_inv in E2. destruct E2 as (tid & s4 & E4 & E2).
      injection E4 as <- <-. rewrite call_Done in E2.
      injection E2 as _ <-. eexists [_; _]. cbn [trace].
      rewrite Er. rewrite <- !app_assoc. split; reflexivity.
    - injection E2 as <-. exists []. cbn [trace]. rewrite Er.
      now rewrite app_nil_r. }
  destruct Hw as (ew & Tw & Vw).
  assert (Ht : exists et,
             trace s' = trace s2 ++ EvCall (setpriority ANDROID_PRIORITY_NORMAL) (rc, e') :: et
             /\ view priority_view et = []
             /\ old = if (rc =? 0)%Z then result else kInvalidPriority).
  { destruct (rc =? 0)%Z; cbn [negb] in E.
    - match type of E with
      | ?m ?s0 = _ => assert (Hq : emits (hidden priority_view) m)
                      by emits_auto;
                      destruct (emits_trace s0 Hq) as (e2 & T2 & V2)
      end.
      rewrite E in T2. cbn [final_state trace] in T2.
      apply view_hidden in V2. exists e2.
      rewrite T2, Erc, <- app_assoc. split; [reflexivity|].
      split; [exact V2|].
      apply bind_Done_inv in E. destruct E as (? & ? & _ & E).
      now injection E.
    - match type of E with
      | ?m ?s0 = _ => assert (Hq : emits (hidden priority_view) m)
                      by emits_auto;
                      destruct (emits_trace s0 Hq) as (e2 & T2 & V2)
      end.
      rewrite E in T2. cbn [final_state trace] in T2.
      apply view_hidden in V2. exists e2.
      rewrite T2, Erc, <- app_assoc. split; [reflexivity|].
      split; [exact V2|].
      apply bind_Done_inv in E. destruct E as (? & ? & _ & E).
      now injection E. }
  destruct Ht as (et & Tt & Vt & Hold).
  eexists. split.
  { rewrite Tt, Tw, <- !app_assoc. reflexivity. }
  exists result, errno, rc. unfold elevate_steps, saved_priority.
  rewrite He, Hn. cbn [andb]. split; [|exact Hold].
  rewrite !view_app. cbn [view priority_view fst snd app].
  now rewrite Vw, Vt.
Qed.

(** [restorePriority]: what it calls. *)
Lemma restorePriority_steps old :
  shows_some priority_view
    (fun _ l => exists rc, l = restore_steps old rc)
    (restorePriority old).
Proof.
  intros s x s' E. unfold restorePriority in E. unfold restore_steps.
  destruct (old =? kInvalidPriority)%Z; cbn [negb when] in E.
  { injection E as _ <-. exists []. rewrite app_nil_r.
    split; [reflexivity|]. now exists 0%Z. }
  apply bind_Done_inv in E. destruct E as ([rc e'] & s1 & E1 & E).
  rewrite call_Done in E1. injection E1 as Erc <-.
  apply bind_Done_inv in E. destruct E as ([] & s2 & E2 & E).
  match type of E2 with
  | ?m ?s0 = _ =>
      assert (Hq : emits (hidden priority_view) m)
        by (destruct (negb (rc =? 0)%Z); emits_auto);
      destruct (emits_trace s0 Hq) as (e2 & T2 & V2)
  end.
  rewrite E2 in T2. cbn [final_state trace] in T2. apply view_hidden in V2.
  assert (Hw : exists ew,
             trace s' = trace s2 ++ ew
             /\ view priority_view ew
                = if (old >=? ANDROID_PRIORITY_BACKGROUND)%Z
                  then [SetSchedPolicy SP_BACKGROUND] else []).
  { destruct (old >=? ANDROID_PRIORITY_BACKGROUND)%Z; cbn [when] in E.
    - apply bind_Done_inv in E. destruct E as (tid & s4 & E4 & E).
      injection E4 as <- <-. rewrite call_Done in E.
      injection E as _ <-. eexists [_; _]. cbn [trace].
      rewrite <- !app_assoc. split; reflexivity.
    - injection E as _ <-. exists []. now rewrite app_nil_r. }
  destruct Hw as (ew & Tw & Vw).
  eexists. split.
  { rewrite Tw, T2, <- !app_assoc. reflexivity. }
  exists rc. rewrite !view_app. cbn [view priority_view fst snd app].
  rewrite Erc. cbn [fst]. now rewrite V2, Vw.
Qed.

(** X13.  A collection that is not concurrent and runs to its end reads
    the priority of its thread once.  It raises a priority that is lower
    than normal, and at its end sets the priority back to the value it has
    read exactly when raising it succeeded (and that value is not
    [kInvalidPriority]); the scheduling policy goes to the foreground and
    back to the background around it for a background priority.  It makes
    no other priority or scheduling call. *)
Theorem collection_restores_priority clearSoftRefs reason s s' :
  running_in s = false ->
  reason <> GC_CONCURRENT ->
  dvmCollectGarbageInternal clearSoftRefs reason s = Done tt s' ->
  exists result errno rc rc',
    view priority_view (new_events s (Done tt s'))
    = elevate_steps result errno rc
      ++ restore_steps (saved_priority result errno rc) rc'.
Proof.
  intros Hrun Hr H. unfold running_in in Hrun.
  unfold dvmCollectGarbageInternal in H.
  unfold bind at 1 in H. unfold gets at 1 in H. rewrite Hrun in H.
  cbv zeta in H.
  assert (Hc : GcReason_eqb reason GC_CONCURRENT = false)
    by (destruct reason; [reflexivity | contradiction | reflexivity]).
  rewrite Hc in H. cbn [negb when] in H.
  match type of H with
  | ?body s = _ =>
      assert (Hs : shows_some priority_view
                     (fun _ l =>
                        exists result errno rc rc',
                          l = elevate_steps result errno rc
                              ++ restore_steps
                                   (saved_priority result errno rc) rc')
                     body)
  end.
  { do 5 (apply shows_some_skip; [solve [emits_auto] | intros]).
    eapply shows_some_bind; [apply elevatePriority_steps|].
    intros old l1 (result & errno & rc & -> & ->).
    assert (G : forall (m : M unit),
               shows_some priority_view
                 (fun _ l => exists rc',
                    l = restore_steps (saved_priority result errno rc) rc')
                 m ->
               shows_some priority_view
                 (fun _ l2 =>
                    exists result0 errno0 rc0 rc',
                      elevate_steps result errno rc ++ l2
                      = elevate_steps result0 errno0 rc0
                        ++ restore_steps
                             (saved_priority result0 errno0 rc0) rc')
                 m).
    { intros m Hm sa xa sb Ea.
      destruct (Hm _ _ _ Ea) as (evs & T & rc' & V).
      exists evs. split; [exact T|].
      exists result, errno, rc, rc'. now rewrite V. }
    apply G. clear G.
    repeat first
      [ apply restorePriority_steps
      | apply shows_some_skip;
        [ solve [emits_auto]
        | intros;
          try match goal with
              | |- shows_some _ _ (let (_, _) := ?p in _) => destruct p
              end ]
      | apply shows_some_then_quiet; [ | intros; solve [emits_auto] ] ]. }
  destruct (Hs _ _ _ H) as (evs & T & P).
  erewrite new_events_app by exact T. exact P.
Qed.

End Priority.

(** * The allocation ladder *)

Section Ladder.

Context {platform : Platform} {collaborators : Collaborators}.

(** ** Runs described up to their outcome *)

Lemma climbs_after {A B L} (v : Event -> option L) l1 l2
    (Q : B -> State -> Prop) (m : M A) (k : A -> M B) s x s1 e1 :
  m s = Done x s1 -> trace s1 = trace s ++ e1 -> view v e1 = l1 ->
  climbs v l2 Q s1 (k x s1) -> climbs v (l1 ++ l2) Q s (bind m k s).
Proof.
  intros E T V (e2 & T2 & C). unfold bind. rewrite E.
  exists (e1 ++ e2). rewrite T2, T, app_assoc. split; [reflexivity|].
  rewrite view_app, V.
  destruct (k x s1) as [y s2 | s2 | s2].
  - destruct C as [-> Hq]. now split.
  - destruct C as (rest & ->). exists rest. now rewrite app_assoc.
  - exact C.
Qed.

Lemma climbs_from {A L} (v : Event -> option L) l (Q : A -> State -> Prop)
    s s1 e0 (o : Outcome A) :
  trace s1 = trace s ++ e0 -> view v e0 = [] ->
  climbs v l Q s1 o -> climbs v l Q s o.
Proof.
  intros T V (e & T1 & C). exists (e0 ++ e).
  rewrite T1, T, app_assoc. split; [reflexivity|].
  rewrite view_app, V. exact C.
Qed.

Lemma shows_upto_quiet {A L} (v : Event -> option L) (m : M A) :
  emits (hidden v) m -> aborts_within (fun _ => true) m ->
  shows_upto v [] m.
Proof.
  intros He Ha s. destruct (emits_trace s He) as (e & T & P).
  apply view_hidden in P. exists e. split; [exact T|].
  specialize (Ha s). destruct (m s); [now split | | exact Ha].
  exists []. now rewrite P.
Qed.

Lemma shows_upto_call {R L} (v : Event -> option L) lab (c : ExtCall R) :
  (forall r, v (EvCall c r) = Some lab) -> shows_upto v [lab] (call c).
Proof.
  intros H s. rewrite call_Done. eexists [_]. split; [reflexivity|].
  cbn. now rewrite H.
Qed.

Lemma shows_upto_yield {R L} (v : Event -> option L) lab (c : EnvCall R) :
  (forall r, v (EvEnv c r) = Some lab) -> shows_upto v [lab] (yield c).
Proof.
  intros H s. rewrite yield_Done. eexists [_]. split; [reflexivity|].
  cbn. now rewrite H.
Qed.

Lemma shows_upto_bind {A B L} (v : Event -> option L) l l1 l2 (m : M A)
    (k : A -> M B) :
  shows_upto v l1 m -> (forall x, shows_upto v l2 (k x)) -> l = l1 ++ l2 ->
  shows_upto v l (bind m k).
Proof.
  intros Hm Hk -> s. destruct (Hm s) as (e1 & T1 & C1).
  destruct (m s) as [x s1 | s1 | s1] eqn:E; cbn [final_state] in T1.
  - destruct C1 as [V1 _].
    eapply climbs_after; [exact E | exact T1 | exact V1 | apply Hk].
  - unfold bind. rewrite E. exists e1. split; [exact T1|].
    destruct C1 as (rest & ->). exists (rest ++ l2). now rewrite app_assoc.
  - contradiction.
Qed.

End Ladder.

(** A statement of [Heap.c] that neither waits nor, unless it is one of
    the two aborts, fails to return. *)
Ltac returns_or_aborts :=
  first
    [ solve [apply aborts_within_returns; returns_auto]
    | solve [apply aborts_within_must; intros; reflexivity]
    | solve [unfold LOGE_HEAP; apply aborts_within_abort_when; reflexivity] ].

(** Reads a function of [Heap.c] statement by statement through a view,
    whatever its outcome. *)
Ltac upto_walk :=
  cbv beta;
  cbn [GcReason_eqb negb when];
  first
    [ apply shows_upto_quiet; [solve [emits_auto] | returns_or_aborts]
    | eapply shows_upto_call; intros; reflexivity
    | eapply shows_upto_yield; intros; reflexivity
    | eapply shows_upto_bind;
      [ upto_walk
      | intros;
        try match goal with
            | |- shows_upto _ _ (let (_, _) := ?p in _) => destruct p
            end;
        upto_walk
      | reflexivity ] ].

Section Climb.

Context {platform : Platform} {collaborators : Collaborators}.

(** A collection for an allocation that finds [gcRunning] clear is a
    foreground GC, and leaves [gcRunning] clear. *)
Lemma collection_climbs c s :
  running_in s = false ->
  climbs ladder_view (foreground_gc c) (fun _ s' => running_in s' = false) s
    (dvmCollectGarbageInternal c GC_FOR_MALLOC s).
Proof.
  intros Hrun. unfold running_in in Hrun.
  unfold dvmCollectGarbageInternal.
  unfold bind at 1. unfold gets at 1. rewrite Hrun. cbv zeta.
  match goal with
  | |- climbs _ _ _ _ (?body s) =>
      assert (Hs : shows_upto ladder_view (foreground_gc c) body)
  end.
  { unfold foreground_gc. cbn [cycle_of map]. upto_walk. }
  destruct (Hs s) as (evs & T & C). exists evs. split; [exact T|].
  match goal with
  | |- match ?body s with _ => _ end => destruct (body s) as [[] s1|s1|s1] eqn:H
  end; [|exact C|exact C].
  destruct C as [V _]. split; [exact V|].
  repeat match type of H with
         | bind (modify (with_gcHeap (set_gcRunning false))) _ _ = _ =>
             fail 1
         | bind _ _ _ = _ =>
             let x := fresh "x" in
             let s1 := fresh "s" in
             apply bind_Done_inv in H; destruct H as (x & s1 & _ & H);
             cbv beta in H;
             try match type of H with
                 | (let (_, _) := ?p in _) _ = _ => destruct p
                 end
         end.
  unfold bind at 1 in H. unfold modify at 1 in H.
  match type of H with
  | ?rest ?s1 = _ =>
      assert (K : keeps_vm rest) by keeps_auto;
      destruct (K s1) as [G _]
  end.
  rewrite H in G. cbn in G. unfold running_in, the_gcHeap. now rewrite G.
Qed.

End Climb.

Section Steps.

Context {platform : Platform} {collaborators : Collaborators}.

(** [gcForMalloc] counts the collection, logs, and runs it. *)
Lemma gcForMalloc_enters c s :
  exists s1 e,
    gcForMalloc c s = dvmCollectGarbageInternal c GC_FOR_MALLOC s1
    /\ trace s1 = trace s ++ [e] /\ ladder_view e = None
    /\ running_in s1 = running_in s.
Proof.
  unfold gcForMalloc, dvmThreadSelf, LOGD_HEAP, bind, gets, modify, emit.
  destruct (enabled (allocProf (gDvm (world s)))); cbn [when].
  - destruct (curThread (world s)) eqn:Ht; cbn [thread_is_null negb when];
      eexists _, _; (split; [reflexivity|]);
      (split; [reflexivity|]); (split; [reflexivity|]);
      unfold running_in, the_gcHeap, with_allocProf, with_self, record;
      cbn; rewrite ?Ht; reflexivity.
  - eexists _, _. split; [reflexivity|]. split; [reflexivity|].
    split; reflexivity.
Qed.

Lemma gcForMalloc_climbs c s :
  running_in s = false ->
  climbs ladder_view (foreground_gc c) (fun _ s' => running_in s' = false) s
    (gcForMalloc c s).
Proof.
  intros R. destruct (gcForMalloc_enters c s) as (s1 & e & -> & T & V & R1).
  eapply climbs_from; [exact T | cbn; now rewrite V |].
  apply collection_climbs. congruence.
Qed.

(** With a collection running, [gcForMalloc] collects nothing. *)
Lemma gcForMalloc_recursive c s :
  running_in s = true ->
  exists s' evs,
    gcForMalloc c s = Done tt s'
    /\ trace s' = trace s ++ evs /\ view ladder_view evs = []
    /\ running_in s' = true.
Proof.
  intros R. destruct (gcForMalloc_enters c s) as (s1 & e & -> & T & V & R1).
  rewrite <- R1 in R. unfold running_in in R.
  unfold dvmCollectGarbageInternal. unfold bind at 1. unfold gets at 1.
  rewrite R. unfold LOGW_HEAP, emit.
  eexists _, [_; _]. split; [reflexivity|]. cbn [trace record].
  rewrite T, <- app_assoc. split; [reflexivity|].
  cbn. rewrite V. split; [reflexivity | exact R].
Qed.

(** ** The wait *)

Lemma waitRound_trace self s :
  exists e,
    trace (final_state (waitRound self s)) = trace s ++ e
    /\ view ladder_view e = [Wait gcHeapCond gcHeapLock].
Proof.
  unfold waitRound, bind, ret. rewrite call_Done, yield_Done, call_Done.
  eexists [_; _; _]. cbn [final_state trace world ext].
  rewrite <- !app_assoc. split; reflexivity.
Qed.

Lemma waitWhileGcRunning_climbs fuel self : forall s,
  exists evs,
    trace (final_state (waitWhileGcRunning fuel self s)) = trace s ++ evs
    /\ match waitWhileGcRunning fuel self s with
       | Done _ s' =>
           exists n,
             view ladder_view evs = wait_for_gc n
             /\ running_in s' = false /\ (running_in s = true -> 0 < n)
       | Aborted _ => False
       | Spinning s' =>
           view ladder_view evs = wait_for_gc fuel /\ running_in s' = true
       end.
Proof.
  induction fuel as [|fuel IH]; intros s; destruct (running_in s) eqn:R.
  - rewrite wait_spins by exact R. exists []. rewrite app_nil_r.
    now repeat split.
  - rewrite wait_idle by exact R. exists []. rewrite app_nil_r.
    split; [reflexivity|]. exists 0. now repeat split.
  - rewrite wait_round by exact R.
    destruct (waitRound_trace self s) as (e0 & T0 & V0).
    destruct (IH (final_state (waitRound self s))) as (e & T & C).
    exists (e0 ++ e). rewrite T, T0, app_assoc. split; [reflexivity|].
    rewrite view_app, V0.
    destruct (waitWhileGcRunning fuel self (final_state (waitRound self s)))
      as [u s' | s' | s'].
    + destruct C as (n & V & Rf & _). exists (S n).
      rewrite V. split; [reflexivity|]. split; [exact Rf|]. intros _. lia.
    + exact C.
    + destruct C as [V Rt]. rewrite V. now split.
  - rewrite wait_idle by exact R. exists []. rewrite app_nil_r.
    split; [reflexivity|]. exists 0. now repeat split.
Qed.

Lemma dvmWaitForConcurrentGcToComplete_run fuel s :
  dvmWaitForConcurrentGcToComplete fuel s
  = if NDEBUG || negb (thread_is_null (self_of s))
    then waitWhileGcRunning fuel (self_of s) s
    else Aborted (record EvAbort s).
Proof.
  unfold dvmWaitForConcurrentGcToComplete, dvmThreadSelf, self_of.
  unfold bind, gets, assert.
  destruct (NDEBUG || _); reflexivity.
Qed.

Lemma dvmWaitForConcurrentGcToComplete_climbs fuel s :
  running_in s = true ->
  exists evs,
    trace (final_state (dvmWaitForConcurrentGcToComplete fuel s))
    = trace s ++ evs
    /\ match dvmWaitForConcurrentGcToComplete fuel s with
       | Done _ s' =>
           exists n,
             0 < n /\ view ladder_view evs = wait_for_gc n
             /\ running_in s' = false
       | Aborted _ => view ladder_view evs = []
       | Spinning s' =>
           view ladder_view evs = wait_for_gc fuel /\ running_in s' = true
       end.
Proof.
  intros R. rewrite dvmWaitForConcurrentGcToComplete_run.
  destruct (NDEBUG || _).
  - destruct (waitWhileGcRunning_climbs fuel (self_of s) s) as (e & T & C).
    exists e. split; [exact T|].
    destruct (waitWhileGcRunning fuel (self_of s) s) as [u s' | s' | s'].
    + destruct C as (n & V & Rf & Hpos). exists n. auto.
    + contradiction.
    + exact C.
  - exists [EvAbort]. split; reflexivity.
Qed.

(** ** The last step *)

Lemma collect_soft_refs_climbs size s :
  running_in s = false ->
  exists r5,
    climbs ladder_view (foreground_gc true ++ [AllocAndGrow size r5])
      (fun p _ => p = r5) s (collect_soft_refs size s).
Proof.
  intros R. unfold collect_soft_refs.
  unfold bind at 1. unfold LOGI_HEAP at 1. unfold emit at 1.
  cbv beta iota. unfold bind at 1.
  match goal with
  | |- context [gcForMalloc true ?s0] =>
      assert (R0 : running_in s0 = false) by exact R;
      destruct (gcForMalloc_climbs true s0 R0) as (e1 & T1 & C1);
      destruct (gcForMalloc true s0) as [[] s1 | s1 | s1]
  end; cbn [final_state record trace] in T1.
  - destruct C1 as [V1 _]. unfold bind at 1. rewrite call_Done.
    destruct (fst (on_call (dvmHeapSourceAllocAndGrow size) (ext (world s1))))
      as [a|]; cbn [is_null negb].
    + exists (Some a). eexists (_ :: e1 ++ [_]). cbn [final_state trace].
      split; [rewrite T1, <- !app_assoc; reflexivity|].
      split; [|reflexivity].
      cbn [view ladder_view]. rewrite view_app, V1. reflexivity.
    + exists NULL.
      unfold LOGE_HEAP, dvmThreadSelf, bind, emit, gets, query, ret.
      eexists (_ :: e1 ++ [_; _; _]). cbn [final_state trace record].
      split; [rewrite T1, <- !app_assoc; reflexivity|].
      split; [|reflexivity].
      cbn [view ladder_view]. rewrite view_app, V1. reflexivity.
  - exists NULL. destruct C1 as (rest & Hl).
    eexists (_ :: e1). cbn [final_state].
    split; [rewrite T1, <- app_assoc; reflexivity|].
    exists (rest ++ [AllocAndGrow size NULL]).
    cbn [view ladder_view]. rewrite Hl, app_assoc. reflexivity.
  - contradiction.
Qed.

Lemma collect_soft_refs_recursive size s :
  running_in s = true ->
  exists r s' evs,
    collect_soft_refs size s = Done r s'
    /\ trace s' = trace s ++ evs
    /\ view ladder_view evs = [AllocAndGrow size r].
Proof.
  intros R. unfold collect_soft_refs.
  unfold bind at 1. unfold LOGI_HEAP at 1. unfold emit at 1.
  cbv beta iota. unfold bind at 1.
  match goal with
  | |- context [gcForMalloc true ?s0] =>
      assert (R0 : running_in s0 = true) by exact R;
      destruct (gcForMalloc_recursive true s0 R0)
        as (s1 & e1 & E1 & T1 & V1 & _);
      rewrite E1
  end. cbn [record trace] in T1.
  unfold bind at 1. rewrite call_Done.
  destruct (fst (on_call (dvmHeapSourceAllocAndGrow size) (ext (world s1))))
    as [a|]; cbn [is_null negb].
  - eexists _, _, (_ :: e1 ++ [_]). split; [reflexivity|].
    cbn [trace]. rewrite T1, <- !app_assoc. split; [reflexivity|].
    cbn [view ladder_view]. rewrite view_app, V1. reflexivity.
  - unfold LOGE_HEAP, dvmThreadSelf, bind, emit, gets, query, ret.
    eexists _, _, (_ :: e1 ++ [_; _; _]). split; [reflexivity|].
    cbn [trace record]. rewrite T1, <- !app_assoc. split; [reflexivity|].
    cbn [view ladder_view]. rewrite view_app, V1. reflexivity.
Qed.

End Steps.

Section TryMalloc.

Context {platform : Platform} {collaborators : Collaborators}.

Lemma first_success_null shown rest :
  first_success ((shown, NULL) :: rest)
  = (shown ++ fst (first_success rest), snd (first_success rest)).
Proof. reflexivity. Qed.

Lemma first_success_some shown a rest :
  first_success ((shown, Some a) :: rest) = (shown, Some a).
Proof. reflexivity. Qed.

Lemma first_success_last shown r : first_success [(shown, r)] = (shown, r).
Proof. destruct r; cbn; now rewrite ?app_nil_r. Qed.

Lemma climbs_ladder_intro fuel size s (o : Outcome ptr) evs waits
    r1 r2 r3 r4 r5 :
  trace (final_state o) = trace s ++ evs ->
  (let expected :=
     first_success (ladder_steps (running_in s) waits size r1 r2 r3 r4 r5) in
   match o with
   | Done p _ =>
       view ladder_view evs = fst expected /\ p = snd expected
       /\ (running_in s = true -> r1 = NULL -> 0 < waits)
   | Aborted _ => exists rest, fst expected = view ladder_view evs ++ rest
   | Spinning s' =>
       view ladder_view evs = Alloc size NULL :: wait_for_gc fuel
       /\ running_in s = true /\ running_in s' = true
   end) ->
  climbs_ladder fuel size s o.
Proof.
  intros T H. exists waits, r1, r2, r3, r4, r5. cbv zeta.
  erewrite new_events_app by exact T. exact H.
Qed.

(** Below the growth limit [tryMalloc] climbs the ladder. *)
Lemma tryMalloc_climbs fuel size s :
  (size < heapGrowthLimit (gDvm (world s)))%N ->
  climbs_ladder fuel size s (tryMalloc fuel size s).
Proof.
  intros Hlt. apply N.leb_gt in Hlt.
  unfold tryMalloc. unfold bind at 1. unfold gets at 1. rewrite Hlt.
  match goal with
  | |- context [bind (gcForMalloc false) ?k] =>
      set (tail := bind (gcForMalloc false) k)
  end.
  pose (last_steps := fun r3 r4 r5 : ptr =>
          [(foreground_gc false ++ [Alloc size r3], r3);
           ([AllocAndGrow size r4], r4);
           (foreground_gc true ++ [AllocAndGrow size r5], r5)]).
  assert (Tail : forall s1,
            running_in s1 = false ->
            exists r3 r4 r5,
              climbs ladder_view (fst (first_success (last_steps r3 r4 r5)))
                (fun p _ => p = snd (first_success (last_steps r3 r4 r5)))
                s1 (tail s1)).
  { intros s1 R1. subst tail last_steps. cbv beta.
    destruct (gcForMalloc_climbs false s1 R1) as (e1 & T1 & C1).
    unfold bind at 1.
    destruct (gcForMalloc false s1) as [[] s2 | s2 | s2];
      cbn [final_state] in T1.
    - destruct C1 as [V1 R2]. unfold bind at 1. rewrite call_Done.
      destruct (fst (on_call (dvmHeapSourceAlloc size) (ext (world s2))))
        as [a|]; cbn [is_null negb].
      + exists (Some a), NULL, NULL. rewrite first_success_some.
        cbn [fst snd]. unfold ret. eexists (e1 ++ [_]). cbn [final_state trace].
        split; [rewrite T1, <- !app_assoc; reflexivity|].
        split; [|reflexivity].
        rewrite view_app, V1. reflexivity.
      + unfold bind at 1. rewrite call_Done.
        destruct (fst (on_call (dvmHeapSourceAllocAndGrow size) _))
          as [b|]; cbn [is_null negb].
        * exists NULL, (Some b), NULL.
          rewrite first_success_null, first_success_some. cbn [fst snd].
          unfold LOGI_HEAP, bind, query, emit, ret.
          eexists (e1 ++ [_; _; _; _]). cbn [final_state trace record].
          split; [rewrite T1, <- !app_assoc; reflexivity|].
          split; [|reflexivity].
          rewrite view_app, V1, <- app_assoc. reflexivity.
        * match goal with
          | |- context [collect_soft_refs size ?s4] =>
              assert (R4 : running_in s4 = false) by exact R2;
              destruct (collect_soft_refs_climbs size s4 R4)
                as (r5 & e5 & T5 & C5);
              exists NULL, NULL, r5;
              rewrite !first_success_null, first_success_last;
              cbn [fst snd];
              eexists (e1 ++ [_; _] ++ e5);
              split;
              [ rewrite T5; cbn [trace]; rewrite T1, <- !app_assoc;
                reflexivity |];
              destruct (collect_soft_refs size s4) as [p s5 | s5 | s5]
          end.
          -- destruct C5 as [V5 ->]. split; [|reflexivity].
             rewrite !view_app, V1, V5, <- !app_assoc. reflexivity.
          -- destruct C5 as (rest & Hl). exists rest.
             rewrite !view_app, V1, <- !app_assoc.
             cbn [view ladder_view app]. rewrite Hl, <- ?app_assoc.
             reflexivity.
          -- contradiction.
    - exists NULL, NULL, NULL.
      rewrite !first_success_null. cbn [fst snd].
      destruct C1 as (rest & Hl). exists e1. split; [exact T1|].
      eexists. rewrite Hl, <- !app_assoc. reflexivity.
    - contradiction. }
  unfold bind at 1. rewrite call_Done.
  destruct (fst (on_call (dvmHeapSourceAlloc size) (ext (world s))))
    as [a|]; cbn [is_null negb].
  - unfold ret.
    apply climbs_ladder_intro
      with (evs := [EvCall (dvmHeapSourceAlloc size) (Some a)])
           (waits := 0) (r1 := Some a) (r2 := NULL) (r3 := NULL)
           (r4 := NULL) (r5 := NULL); [reflexivity|].
    cbv zeta. unfold ladder_steps. rewrite first_success_some.
    cbn [fst snd].
    split; [reflexivity|]. split; [reflexivity|]. intros _ H. discriminate.
  - unfold bind at 1. unfold gets at 1.
    match goal with
    | |- context [gcRunning (the_gcHeap (world ?st))] =>
        change (gcRunning (the_gcHeap (world st))) with (running_in s);
        set (s1 := st)
    end.
    destruct (running_in s) eqn:R.
    + rewrite bind_assoc. unfold bind at 1.
      assert (R1 : running_in s1 = true) by exact R.
      destruct (dvmWaitForConcurrentGcToComplete_climbs fuel s1 R1)
        as (ew & Tw & Cw).
      destruct (dvmWaitForConcurrentGcToComplete fuel s1)
        as [[] s2 | s2 | s2]; cbn [final_state] in Tw.
      * destruct Cw as (n & Hn & Vw & R2).
        unfold bind at 1. rewrite call_Done.
        destruct (fst (on_call (dvmHeapSourceAlloc size) (ext (world s2))))
          as [a|]; cbn [is_null negb].
        -- unfold ret.
           apply climbs_ladder_intro
             with (evs := EvCall (dvmHeapSourceAlloc size) NULL
                          :: ew ++ [EvCall (dvmHeapSourceAlloc size) (Some a)])
                  (waits := n) (r1 := NULL) (r2 := Some a) (r3 := NULL)
                  (r4 := NULL) (r5 := NULL).
           { cbn [final_state trace]. rewrite Tw. subst s1. cbn [trace].
             rewrite <- !app_assoc. reflexivity. }
           cbv zeta. rewrite R. unfold ladder_steps.
           rewrite first_success_null, first_success_some. cbn [fst snd].
           split; [|split; [reflexivity | intros _ _; exact Hn]].
           cbn [view ladder_view]. rewrite view_app, Vw. reflexivity.
        -- match goal with
           | |- context [tail ?s3] =>
               assert (R3 : running_in s3 = false) by exact R2;
               destruct (Tail s3 R3) as (r3 & r4 & r5 & e3 & T3 & C3);
               apply climbs_ladder_intro
                 with (evs := EvCall (dvmHeapSourceAlloc size) NULL
                              :: ew ++ [EvCall (dvmHeapSourceAlloc size) NULL]
                                 ++ e3)
                      (waits := n) (r1 := NULL) (r2 := NULL) (r3 := r3)
                      (r4 := r4) (r5 := r5);
               [ rewrite T3; cbn [trace]; rewrite Tw; subst s1; cbn [trace];
                 rewrite <- !app_assoc; reflexivity |];
               cbv zeta; rewrite R;
               change (ladder_steps true n size NULL NULL r3 r4 r5)
                 with (([Alloc size NULL], NULL)
                       :: (wait_for_gc n ++ [Alloc size NULL], NULL)
                       :: last_steps r3 r4 r5);
               rewrite !first_success_null; cbn [fst snd];
               destruct (tail s3) as [p s4 | s4 | s4]
           end.
           ++ destruct C3 as [V3 ->].
              split; [|split; [reflexivity | intros _ _; exact Hn]].
              cbn [view ladder_view]. rewrite !view_app, Vw, V3.
              cbn [view ladder_view app]. rewrite <- !app_assoc.
              reflexivity.
           ++ destruct C3 as (rest & Hl). exists rest.
              cbn [view ladder_view]. rewrite !view_app, Vw, Hl.
              cbn [view ladder_view app]. rewrite <- !app_assoc.
              reflexivity.
           ++ contradiction.
      * apply climbs_ladder_intro
          with (evs := EvCall (dvmHeapSourceAlloc size) NULL :: ew)
               (waits := 0) (r1 := NULL) (r2 := NULL) (r3 := NULL)
               (r4 := NULL) (r5 := NULL).
        { cbn [final_state]. rewrite Tw. subst s1. cbn [trace].
          rewrite <- !app_assoc. reflexivity. }
        cbv zeta. rewrite R. unfold ladder_steps.
        rewrite !first_success_null. cbn [fst snd].
        cbn [view ladder_view]. rewrite Cw. eexists. reflexivity.
      * destruct Cw as [Vw R2].
        apply climbs_ladder_intro
          with (evs := EvCall (dvmHeapSourceAlloc size) NULL :: ew)
               (waits := 0) (r1 := NULL) (r2 := NULL) (r3 := NULL)
               (r4 := NULL) (r5 := NULL).
        { cbn [final_state]. rewrite Tw. subst s1. cbn [trace].
          rewrite <- !app_assoc. reflexivity. }
        cbv zeta. cbn [view ladder_view]. rewrite Vw. now repeat split.
    + unfold bind at 1. unfold ret at 1. cbn [is_null negb].
      assert (R1 : running_in s1 = false) by exact R.
      destruct (Tail s1 R1) as (r3 & r4 & r5 & e3 & T3 & C3).
      apply climbs_ladder_intro
        with (evs := EvCall (dvmHeapSourceAlloc size) NULL :: e3)
             (waits := 0) (r1 := NULL) (r2 := NULL) (r3 := r3)
             (r4 := r4) (r5 := r5).
      { rewrite T3. subst s1. cbn [trace]. rewrite <- !app_assoc.
        reflexivity. }
      cbv zeta. rewrite R.
      change (ladder_steps false 0 size NULL NULL r3 r4 r5)
        with (([Alloc size NULL], NULL) :: ([], NULL)
              :: last_steps r3 r4 r5).
      rewrite !first_success_null. cbn [fst snd app].
      destruct (tail s1) as [p s4 | s4 | s4].
      * destruct C3 as [V3 ->].
        split; [|split; [reflexivity | intros H; discriminate]].
        cbn [view ladder_view]. now rewrite V3.
      * destruct C3 as (rest & Hl). exists rest.
        cbn [view ladder_view]. now rewrite Hl.
      * contradiction.
Qed.

(** At the growth limit and above, [tryMalloc] runs the last step alone. *)
Lemma tryMalloc_last_step fuel size s :
  (heapGrowthLimit (gDvm (world s)) <= size)%N ->
  runs_last_step size s (tryMalloc fuel size s).
Proof.
  intros Hle. apply N.leb_le in Hle.
  unfold tryMalloc. unfold bind at 1. unfold gets at 1. rewrite Hle.
  unfold bind at 1. unfold LOGW_HEAP at 1. unfold emit at 1.
  cbv beta iota. unfold runs_last_step. cbv zeta.
  match goal with
  | |- context [collect_soft_refs size ?s0] => set (s1 := s0)
  end.
  destruct (running_in s) eqn:R.
  - assert (R1 : running_in s1 = true) by exact R.
    destruct (collect_soft_refs_recursive size s1 R1)
      as (r & s' & evs & E & T & V).
    rewrite E. erewrite new_events_app.
    2:{ cbn [final_state]. rewrite T. subst s1. cbn [record trace].
        rewrite <- app_assoc. reflexivity. }
    cbn [view ladder_view app]. exact V.
  - assert (R1 : running_in s1 = false) by exact R.
    destruct (collect_soft_refs_climbs size s1 R1) as (r5 & e5 & T5 & C5).
    erewrite new_events_app.
    2:{ rewrite T5. subst s1. cbn [record trace].
        rewrite <- app_assoc. reflexivity. }
    cbn [view ladder_view app].
    destruct (collect_soft_refs size s1) as [p s2 | s2 | s2].
    + destruct C5 as [V5 ->]. exact V5.
    + destruct C5 as (rest & Hl). split; [reflexivity|].
      exists r5, rest. exact Hl.
    + exact C5.
Qed.

End TryMalloc.

Section LadderClaims.

Context {platform : Platform} {collaborators : Collaborators}.


(** What [tryMalloc] does with a request of [heapGrowthLimit] bytes or
    more: no [alloc], no wait, no collection that keeps soft references
    and no first [alloc_and_grow]; it runs the last step alone.  When no
    collection is running, that is a whole foreground collection that
    clears soft references, followed by [alloc_and_grow].  When one is
    running, it is [alloc_and_grow] and nothing else: the run always
    returns, and no step of any collection has been made.  For a request
    of [heapGrowthLimit - 1] bytes [tryMalloc] climbs the whole ladder. *)
Theorem tryMalloc_growth_limit fuel size s :
  ((heapGrowthLimit (gDvm (world s)) <= size)%N ->
   runs_last_step size s (tryMalloc fuel size s))
  /\ ((Z.of_N size = Z.of_N (heapGrowthLimit (gDvm (world s))) - 1)%Z ->
      climbs_ladder fuel size s (tryMalloc fuel size s)).
Proof.
  split.
  - apply tryMalloc_last_step.
  - intros He. apply tryMalloc_climbs. lia.
Qed.

End LadderClaims.

(** * The properties on the demo collaborators *)

Import Demo.


(** A request of 2000 bytes, above the growth limit of 1024, with a
    collection running and with none; and one of 1023 bytes. *)
Lemma tryMalloc_growth_limit_witness :
  ((heapGrowthLimit (gDvm (world s_gc)) <= 2000)%N
   /\ runs_last_step 2000 s_gc (tryMalloc 5 2000 s_gc))
  /\ ((heapGrowthLimit (gDvm (world s0)) <= 2000)%N
      /\ runs_last_step 2000 s0 (tryMalloc 5 2000 s0))
  /\ ((Z.of_N 1023 = Z.of_N (heapGrowthLimit (gDvm (world s0))) - 1)%Z
      /\ climbs_ladder 5 1023 s0 (tryMalloc 5 1023 s0)).
Proof.
  assert (Hgc : (heapGrowthLimit (gDvm (world s_gc)) <= 2000)%N)
    by (apply N.leb_le; reflexivity).
  assert (Hbig : (heapGrowthLimit (gDvm (world s0)) <= 2000)%N)
    by (apply N.leb_le; reflexivity).
  assert (Hedge : (Z.of_N 1023
                   = Z.of_N (heapGrowthLimit (gDvm (world s0))) - 1)%Z)
    by reflexivity.
  split; [|split]; split.
  - exact Hgc.
  - destruct (@tryMalloc_growth_limit _ _ 5 2000%N s_gc) as [H _].
    exact (H Hgc).
  - exact Hbig.
  - destruct (@tryMalloc_growth_limit _ _ 5 2000%N s0) as [H _].
    exact (H Hbig).
  - exact Hedge.
  - destruct (@tryMalloc_growth_limit _ _ 5 1023%N s0) as [_ H].
    exact (H Hedge).
Defined.

(** C2.  A request of 2000 bytes, above the growth limit of 1024, by a
    thread that holds the heap lock while a concurrent collection is
    running.
    [tryMalloc] returns [NULL] after one [alloc_and_grow]: no thread has
    been suspended, no reference pass has run, and the 100 bytes behind
    soft references are still held.  [dvmMalloc] then throws the
    [OutOfMemoryError]. *)
Lemma tryMalloc_giant_during_gc_keeps_soft_refs :
  (heapGrowthLimit (gDvm (world s_gc)) <= 2000)%N
  /\ running_in s_gc = true
  /\ tryMalloc 5 2000 s_gc
     = Done NULL (final_state (tryMalloc 5 2000 s_gc))
  /\ view ladder_view (new_events s_gc (tryMalloc 5 2000 s_gc))
     = [AllocAndGrow 2000 NULL]
  /\ existsb (is_reference_pass true)
       (new_events s_gc (tryMalloc 5 2000 s_gc)) = false
  /\ existsb is_suspend_all (new_events s_gc (tryMalloc 5 2000 s_gc))
     = false
  /\ soft (ext (world (final_state (tryMalloc 5 2000 s_gc)))) = 100%N
  /\ dvmMalloc 5 2000 0 s_gc
     = Done NULL (final_state (dvmMalloc 5 2000 0 s_gc))
  /\ existsb (is_reference_pass true)
       (trace (final_state (dvmMalloc 5 2000 0 s_gc))) = false
  /\ existsb sets_exception
       (trace (final_state (dvmMalloc 5 2000 0 s_gc))) = true
  /\ soft (ext (world (final_state (dvmMalloc 5 2000 0 s_gc)))) = 100%N.
Proof.
  split; [apply N.leb_le; reflexivity|].
  repeat split; vm_compute; reflexivity.
Qed.

Lemma recursive_gc_returns_at_once_witness :
  running_in s_gc = true
  /\ exists s',
       dvmCollectGarbageInternal false GC_EXPLICIT s_gc = Done tt s'
       /\ world s' = world s_gc
       /\ running_in s' = true
       /\ new_events s_gc (Done tt s')
          = [EvLog LOG_WARN true "Attempted recursive GC\n" []].
Proof.
  split; [reflexivity|].
  apply (@recursive_gc_returns_at_once _ _ false GC_EXPLICIT s_gc). reflexivity.
Defined.

(** Object [16] waits both for its enqueue and for its finalizer: the
    second poll returns it for finalization, the first one for
    enqueueing. *)
Lemma enqueue_precedes_finalize_witness :
  exists i,
    i < 1
    /\ nth_error
         [(Some 16%positive, WORKER_ENQUEUE);
          (Some 16%positive, WORKER_FINALIZE);
          (Some 24%positive, WORKER_FINALIZE)] i
       = Some (Some 16%positive, WORKER_ENQUEUE).
Proof.
  destruct (@enqueue_precedes_finalize _ _ WORKER_FINALIZE s_worker)
    as (_ & _ & _ & H).
  destruct (H 3) as (rs & s' & Hp & _ & Hord).
  vm_compute in Hp. injection Hp as <- _.
  apply (Hord 16%positive 1).
  - left. reflexivity.
  - reflexivity.
Defined.

(** An allocation that fails, by a thread with a [Thread] structure that
    is on the thread list. *)
Lemma dvmMalloc_null_throws_if_thread_witness :
  dvmMalloc 5 300 0 s0 = Done NULL (final_state (dvmMalloc 5 300 0 s0))
  /\ exists s1,
       dvmMalloc_locked 5 300 0 s0 = Done NULL s1
       /\ existsb sets_exception (new_events s0 (Done NULL s1)) = false
       /\ throwOOME s1 = Done tt (final_state (dvmMalloc 5 300 0 s0)).
Proof.
  assert (H : dvmMalloc 5 300 0 s0
              = Done NULL (final_state (dvmMalloc 5 300 0 s0)))
    by (vm_compute; reflexivity).
  split; [exact H|].
  destruct (@dvmMalloc_null_throws_if_thread _ _ 5 300%N 0%Z s0 _ H)
    as (s1 & Hl & He & Ht & _).
  exists s1. split; [exact Hl|]. split; [exact He | exact Ht].
Defined.

(** The same allocation by a caller without a [Thread] structure returns
    [NULL] and no call has set an exception. *)
Lemma dvmMalloc_null_without_exception :
  dvmMalloc 5 300 0 s_nothread
  = Done NULL (final_state (dvmMalloc 5 300 0 s_nothread))
  /\ existsb sets_exception
       (trace (final_state (dvmMalloc 5 300 0 s_nothread))) = false
  /\ pending_exception
       (ext (world (final_state (dvmMalloc 5 300 0 s_nothread)))) = false.
Proof. vm_compute. repeat split; reflexivity. Qed.

Lemma finalizable_recorded_under_lock_witness :
  Z.land 2 ALLOC_FINALIZABLE <> 0%Z
  /\ dvmMalloc 5 10 2 s0
     = Done (Some 4096%positive) (final_state (dvmMalloc 5 10 2 s0))
  /\ finalizableRefs (the_gcHeap (world (final_state (dvmMalloc 5 10 2 s0))))
     = [4096%positive].
Proof.
  assert (Hf : Z.land 2 ALLOC_FINALIZABLE <> 0%Z) by discriminate.
  assert (H : dvmMalloc 5 10 2 s0
              = Done (Some 4096%positive)
                  (final_state (dvmMalloc 5 10 2 s0)))
    by (vm_compute; reflexivity).
  split; [exact Hf|]. split; [exact H|].
  destruct (@finalizable_recorded_under_lock _ _ 5 10%N 2%Z s0 Hf) as (Ha & _).
  destruct (Ha _ _ H) as (sa & sb & sc & Htry & _ & _ & _ & _ & Hfin).
  rewrite Hfin. vm_compute in Htry. injection Htry as <-. reflexivity.
Defined.

(** A collection in flight that finishes at the third wakeup. *)
Lemma wait_returns_when_gc_done_witness :
  dvmWaitForConcurrentGcToComplete 5 s_gc
  = Done tt (after_rounds 3 (self_of s_gc) s_gc)
  /\ running_in (after_rounds 3 (self_of s_gc) s_gc) = false.
Proof.
  destruct (@wait_returns_when_gc_done _ _ 5 s_gc) as (Hret & Hgo).
  assert (H : dvmWaitForConcurrentGcToComplete 5 s_gc
              = Done tt (after_rounds 3 (self_of s_gc) s_gc)).
  { apply Hgo.
    - left. reflexivity.
    - repeat constructor.
    - reflexivity.
    - intros [|[|[|k]]] Hk; try reflexivity. lia. }
  split; [exact H|]. apply (Hret _ _ H).
Defined.

Lemma gc_report_freed_amount_witness :
  running_in s0 = false
  /\ dvmCollectGarbageInternal false GC_FOR_MALLOC s0
     = Done tt (final_state (dvmCollectGarbageInternal false GC_FOR_MALLOC s0))
  /\ exists rest,
       filter is_gc_report
         (trace (final_state
                   (dvmCollectGarbageInternal false GC_FOR_MALLOC s0)))
       = [EvLog LOG_DEBUG false report_single
            (ArgS "GC_FOR_MALLOC" :: ArgS "<" :: ArgN 1 :: rest)].
Proof.
  assert (Hr : running_in s0 = false) by reflexivity.
  assert (H : dvmCollectGarbageInternal false GC_FOR_MALLOC s0
              = Done tt
                  (final_state
                     (dvmCollectGarbageInternal false GC_FOR_MALLOC s0)))
    by (vm_compute; reflexivity).
  split; [exact Hr|]. split; [exact H|].
  destruct (@gc_report_freed_amount _ _ false GC_FOR_MALLOC s0 _ Hr H)
    as (mode & nObj & nBytes & marker & freedK & rest & _ & Hrep & _).
  vm_compute in Hrep. injection Hrep as <- <- <-.
  eexists. vm_compute. reflexivity.
Defined.

(** The pointer [12] is not 8-byte aligned. *)
Lemma dvmIsValidObject_spec_witness :
  (Some 12%positive = NULL \/ ~ (8 | uintptr (Some 12%positive))%Z)
  /\ dvmIsValidObject (Some 12%positive) s0 = Done false s0.
Proof.
  assert (H : Some 12%positive = NULL \/ ~ (8 | uintptr (Some 12%positive))%Z).
  { right. intros [k Hk]. cbn in Hk. lia. }
  split; [exact H|].
  apply (@dvmIsValidObject_spec _ _ (Some 12%positive) s0). exact H.
Defined.

Lemma idle_poll_returns_null_witness :
  referenceOperations (the_gcHeap (world s0)) = []
  /\ pendingFinalizationRefs (the_gcHeap (world s0)) = []
  /\ exists s',
       dvmGetNextHeapWorkerObject WORKER_ENQUEUE s0
       = Done (NULL, WORKER_ENQUEUE) s'
       /\ gDvm (world s') = gDvm (world s0)
       /\ curThread (world s') = curThread (world s0)
       /\ new_events s0 (Done (NULL, WORKER_ENQUEUE) s')
          = [lock_event; unlock_event]
       /\ existsb is_tracked_alloc
            (new_events s0 (Done (NULL, WORKER_ENQUEUE) s')) = false.
Proof.
  split; [reflexivity|]. split; [reflexivity|].
  apply (@idle_poll_returns_null _ _ WORKER_ENQUEUE s0); reflexivity.
Defined.

(** ** The further properties on the demo collaborators *)

Import DemoMore.

(** A concurrent collection of the demo heap. *)
Lemma collection_steps_witness :
  running_in s0 = false
  /\ dvmCollectGarbageInternal false GC_CONCURRENT s0
     = Done tt (final_state (dvmCollectGarbageInternal false GC_CONCURRENT s0))
  /\ view cycle_view
       (new_events s0
          (Done tt
             (final_state
                (dvmCollectGarbageInternal false GC_CONCURRENT s0))))
     = cycle_of false GC_CONCURRENT.
Proof.
  assert (Hr : running_in s0 = false) by reflexivity.
  assert (H : dvmCollectGarbageInternal false GC_CONCURRENT s0
              = Done tt
                  (final_state
                     (dvmCollectGarbageInternal false GC_CONCURRENT s0)))
    by (vm_compute; reflexivity).
  split; [exact Hr|]. split; [exact H|].
  exact (@collection_steps _ _ false GC_CONCURRENT s0 _ Hr H).
Defined.

Lemma collection_locks_witness :
  running_in s0 = false
  /\ dvmCollectGarbageInternal true GC_CONCURRENT s0
     = Done tt (final_state (dvmCollectGarbageInternal true GC_CONCURRENT s0))
  /\ view lock_view
       (new_events s0
          (Done tt
             (final_state
                (dvmCollectGarbageInternal true GC_CONCURRENT s0))))
     = locks_of GC_CONCURRENT.
Proof.
  assert (Hr : running_in s0 = false) by reflexivity.
  assert (H : dvmCollectGarbageInternal true GC_CONCURRENT s0
              = Done tt
                  (final_state
                     (dvmCollectGarbageInternal true GC_CONCURRENT s0)))
    by (vm_compute; reflexivity).
  split; [exact Hr|]. split; [exact H|].
  destruct (@collection_locks _ _ true GC_CONCURRENT s0 _ Hr H) as [Hv _].
  exact Hv.
Defined.

Lemma collection_clears_running_witness :
  running_in s0 = false
  /\ dvmCollectGarbageInternal false GC_EXPLICIT s0
     = Done tt (final_state (dvmCollectGarbageInternal false GC_EXPLICIT s0))
  /\ running_in
       (final_state (dvmCollectGarbageInternal false GC_EXPLICIT s0))
     = false.
Proof.
  assert (Hr : running_in s0 = false) by reflexivity.
  assert (H : dvmCollectGarbageInternal false GC_EXPLICIT s0
              = Done tt
                  (final_state
                     (dvmCollectGarbageInternal false GC_EXPLICIT s0)))
    by (vm_compute; reflexivity).
  split; [exact Hr|]. split; [exact H|].
  exact (@collection_clears_running _ _ false GC_EXPLICIT s0 _ Hr H).
Defined.


(** A tracked allocation of 10 bytes. *)
Lemma dvmMalloc_tracks_result_witness :
  dvmMalloc 5 10 0 s0
  = Done (Some 4096%positive) (final_state (dvmMalloc 5 10 0 s0))
  /\ filter is_tracked_alloc
       (new_events s0
          (Done (Some 4096%positive) (final_state (dvmMalloc 5 10 0 s0))))
     = [tracked_event 4096%positive].
Proof.
  assert (H : dvmMalloc 5 10 0 s0
              = Done (Some 4096%positive)
                  (final_state (dvmMalloc 5 10 0 s0)))
    by (vm_compute; reflexivity).
  split; [exact H|].
  exact (@dvmMalloc_tracks_result _ _ 5 10%N 0%Z s0 _ _ H).
Defined.

(** An allocation without [ALLOC_FINALIZABLE], and a finalizable one that
    fails. *)
Lemma dvmMalloc_appends_only_finalizable_witness :
  (Z.land 0 ALLOC_FINALIZABLE = 0%Z
   /\ existsb is_table_room (new_events s0 (dvmMalloc 5 10 0 s0)) = false)
  /\ (dvmMalloc 5 300 2 s0
      = Done NULL (final_state (dvmMalloc 5 300 2 s0))
      /\ existsb is_table_room
           (new_events s0
              (Done NULL (final_state (dvmMalloc 5 300 2 s0))))
         = false).
Proof.
  assert (Hf : Z.land 0 ALLOC_FINALIZABLE = 0%Z) by reflexivity.
  assert (H : dvmMalloc 5 300 2 s0
              = Done NULL (final_state (dvmMalloc 5 300 2 s0)))
    by (vm_compute; reflexivity).
  split; split.
  - exact Hf.
  - destruct (@dvmMalloc_appends_only_finalizable _ _ 5 10%N 0%Z s0)
      as [Hn _].
    exact (Hn Hf).
  - exact H.
  - destruct (@dvmMalloc_appends_only_finalizable _ _ 5 300%N 2%Z s0)
      as [_ Hn].
    exact (Hn _ H).
Defined.

Lemma throwOOME_clears_flag_witness :
  throwOOME s0 = Done tt (final_state (throwOOME s0))
  /\ curThread (world (final_state (throwOOME s0))) = Some thread0
  /\ throwingOOME thread0 = false.
Proof.
  assert (H : throwOOME s0 = Done tt (final_state (throwOOME s0)))
    by (vm_compute; reflexivity).
  assert (Ht : curThread (world (final_state (throwOOME s0)))
               = Some thread0)
    by (vm_compute; reflexivity).
  split; [exact H|]. split; [exact Ht|].
  exact (@throwOOME_clears_flag _ _ s0 _ _ H Ht).
Defined.

(** A request of 300 bytes that the demo heap cannot serve: soft
    references are cleared, after the growth to 300 bytes has failed. *)
Lemma tryMalloc_clears_soft_refs_last_witness :
  (300 < heapGrowthLimit (gDvm (world s0)))%N
  /\ existsb (is_reference_pass true) (new_events s0 (tryMalloc 5 300 s0))
     = true
  /\ exists before after,
       new_events s0 (tryMalloc 5 300 s0)
       = before ++ grow_failed 300 :: after
       /\ existsb (is_reference_pass true) before = false.
Proof.
  assert (Hlt : (300 < heapGrowthLimit (gDvm (world s0)))%N) by reflexivity.
  assert (He : existsb (is_reference_pass true)
                 (new_events s0 (tryMalloc 5 300 s0)) = true)
    by (vm_compute; reflexivity).
  split; [exact Hlt|]. split; [exact He|].
  exact (@tryMalloc_clears_soft_refs_last _ _ 5 300%N s0 Hlt He).
Defined.

(** An explicit collection by a thread at the background priority. *)
Lemma collection_restores_priority_witness :
  running_in s_background = false
  /\ GC_EXPLICIT <> GC_CONCURRENT
  /\ dvmCollectGarbageInternal false GC_EXPLICIT s_background
     = Done tt
         (final_state
            (dvmCollectGarbageInternal false GC_EXPLICIT s_background))
  /\ exists result errno rc rc',
       [GetPriority 10 0; SetSchedPolicy SP_FOREGROUND; SetPriority 0 0;
        SetPriority 10 0; SetSchedPolicy SP_BACKGROUND]
       = elevate_steps result errno rc
         ++ restore_steps (saved_priority result errno rc) rc'.
Proof.
  assert (Hr : running_in s_background = false) by reflexivity.
  assert (Hn : GC_EXPLICIT <> GC_CONCURRENT) by discriminate.
  assert (H : dvmCollectGarbageInternal false GC_EXPLICIT s_background
              = Done tt
                  (final_state
                     (dvmCollectGarbageInternal false GC_EXPLICIT
                        s_background)))
    by (vm_compute; reflexivity).
  assert (Hl : view priority_view
                 (new_events s_background
                    (Done tt
                       (final_state
                          (dvmCollectGarbageInternal false GC_EXPLICIT
                             s_background))))
               = [GetPriority 10 0; SetSchedPolicy SP_FOREGROUND;
                  SetPriority 0 0; SetPriority 10 0;
                  SetSchedPolicy SP_BACKGROUND])
    by (vm_compute; reflexivity).
  split; [exact Hr|]. split; [exact Hn|]. split; [exact H|].
  destruct (@collection_restores_priority _ _ false GC_EXPLICIT
              s_background _ Hr Hn H) as (result & errno & rc & rc' & Hv).
  rewrite Hl in Hv. exists result, errno, rc, rc'. exact Hv.
Defined.
